(** * Buffer pool manager (BusTub): shallow embedding and verification

    Source: [src/buffer/buffer_pool_manager.cpp].

    The embedding follows the C++ text statement by statement.  The pool is a
    record of the member variables of [BufferPoolManager]; a member function
    that takes the latch is a function from the pool to an [outcome]: the
    state the call returns in together with the returned value, or [Blocks]
    when the call waits for ever on [latch_.lock()].  [FlushPageImpl], which
    never touches the latch, returns a state and a value.  The classes the
    file uses but does not define ([Page], [DiskManager], [ClockReplacer])
    are modelled from the specification.

    Conventions.
    - [page_id_t] and [pin_count_] are C++ [int]; they are modelled on [Z].
      This file only stores and compares page ids.  The arithmetic on a pin
      count ([pin_count_++], [pin_count_ += 1], [pin_count_--]) is 32-bit
      two's complement: [int_wrap] takes INT_MAX + 1 to INT_MIN, which is
      what the compiled code does (the C++ standard leaves signed overflow
      undefined).  The decrement in [UnpinPageImpl] is guarded by
      [pin_count_ > 0], so it never wraps; theorem [reachable_pin_range]
      shows that every pin count of a reachable state is an [int].
    - [frame_id_t] values index the array [pages_]; they are modelled on
      [nat] and [pages_] is a list of length [pool_size_].  Theorem
      [reachable_Inv] shows that every frame id the code uses as an index is
      below [pool_size_] in all reachable states, so the out-of-range
      behaviour of list lookup and update is never exercised.
    - A returned [Page *] is identified with the index of the frame it points
      to; [nullptr] is [None]. *)

From Stdlib Require Import ZArith List Bool Lia.
From stdpp Require Import base numbers list option gmap.
Import Byte.

(** ** Pages (frames) *)

(** Modelled from the spec: the constant [PAGE_SIZE] of the configuration
    header is not among the sources; section 6 gives 4096 bytes. *)
Definition PAGE_SIZE : nat := 4096.

(** Modelled from the spec: [INVALID_PAGE_ID], the sentinel of section 3 for
    a frame that holds no page (the configuration header is not among the
    sources). *)
Definition INVALID_PAGE_ID : Z := (-1)%Z.

(** The bounds of a C++ [int] (32 bits). *)
Definition INT_MAX : Z := 2147483647.
Definition INT_MIN : Z := (-2147483648)%Z.

(** The value of an [int] expression whose mathematical value is [z]: two's
    complement wrap-around into [INT_MIN .. INT_MAX]. *)
Definition int_wrap (z : Z) : Z := ((z + 2147483648) mod 4294967296 - 2147483648)%Z.

(** Modelled from the spec: class [Page] (its header is not among the
    sources).  Section 3: a buffer of one page's worth of bytes, the resident
    page id, the pin count and the dirty flag. *)
Record Page : Type := mkPage {
  data_ : list byte;
  page_id_ : Z;
  pin_count_ : Z;
  is_dirty_ : bool
}.

Definition zero_buffer : list byte := repeat x00 PAGE_SIZE.

(** Modelled from the spec: the constructor of [Page], missing with the
    class.  A fresh frame has a zero buffer, the invalid page id, no pin and
    is clean (section 3). *)
Definition Page_new : Page := mkPage zero_buffer INVALID_PAGE_ID 0 false.

#[global] Instance Page_inhabited : Inhabited Page := populate Page_new.

Definition set_data (d : list byte) (p : Page) : Page :=
  mkPage d (page_id_ p) (pin_count_ p) (is_dirty_ p).
Definition set_page_id (i : Z) (p : Page) : Page :=
  mkPage (data_ p) i (pin_count_ p) (is_dirty_ p).
Definition set_pin_count (c : Z) (p : Page) : Page :=
  mkPage (data_ p) (page_id_ p) c (is_dirty_ p).
Definition set_is_dirty (b : bool) (p : Page) : Page :=
  mkPage (data_ p) (page_id_ p) (pin_count_ p) b.

(** Modelled from the spec: [Page::ResetMemory], missing with the class.  It
    zero-fills the buffer (section 4.3, NewPage); the metadata is untouched. *)
Definition ResetMemory (p : Page) : Page := set_data zero_buffer p.

(** ** Disk backend *)

Module DiskManager.

(** The calls received by the backend, most recent first. *)
Inductive call : Type :=
| AllocatePageCall (page_id : Z)
| DeallocatePageCall (page_id : Z)
| ReadPageCall (page_id : Z)
| WritePageCall (page_id : Z) (buf : list byte).

(** Modelled from the spec: class [DiskManager] (section 6; not among the
    sources).  [contents] is the persisted content per page id,
    [next_page_id] the allocator, [calls] the history of calls. *)
Record t : Type := mk {
  contents : gmap Z (list byte);
  next_page_id : Z;
  calls : list call
}.

(** Modelled from the spec: [DiskManager::AllocatePage] returns a fresh,
    previously unused identifier (section 6); here the next value of a
    counter. *)
Definition AllocatePage (d : t) : Z * t :=
  (next_page_id d,
   mk (contents d) (next_page_id d + 1)%Z
      (AllocatePageCall (next_page_id d) :: calls d)).

(** Modelled from the spec: [DiskManager::DeallocatePage] releases the
    identifier and cannot fail (section 6); a no-op on the persisted
    content. *)
Definition DeallocatePage (page_id : Z) (d : t) : t :=
  mk (contents d) (next_page_id d) (DeallocatePageCall page_id :: calls d).

(** Modelled from the spec: [DiskManager::ReadPage] fills the buffer with
    the persisted content (section 6).  The spec leaves the result undefined
    for an id that holds no content; the model leaves the caller's buffer as
    it is. *)
Definition ReadPage (page_id : Z) (buf : list byte) (d : t) : list byte * t :=
  (default buf (contents d !! page_id),
   mk (contents d) (next_page_id d) (ReadPageCall page_id :: calls d)).

(** Modelled from the spec: [DiskManager::WritePage] persists the buffer
    under the given id (section 6). *)
Definition WritePage (page_id : Z) (buf : list byte) (d : t) : t :=
  mk (<[page_id := buf]> (contents d)) (next_page_id d)
     (WritePageCall page_id buf :: calls d).

End DiskManager.

(** ** Replacer *)

Module ClockReplacer.

(** Modelled from the spec: class [ClockReplacer] (section 4.1; not among
    the sources).  One slot per frame id, in the fixed circular order of the
    frame ids: [None] for a frame that is not tracked, [Some b] for a
    tracked frame with recency bit [b]; [clock_hand] is where the next scan
    starts.  The member functions the pool calls are [Pin] (the spec's
    Remove), [Unpin] (the spec's Track) and [Victim]. *)
Record t : Type := mk {
  ref_bits : list (option bool);
  clock_hand : nat
}.

(** Modelled from the spec: the constructor; no frame is tracked. *)
Definition new (num_pages : nat) : t := mk (repeat None num_pages) 0.

(** The frame is tracked, that is, currently evictable. *)
Definition tracked_in (bits : list (option bool)) (f : nat) : Prop :=
  ∃ b, bits !! f = Some (Some b).

Definition tracked (r : t) (f : nat) : Prop := tracked_in (ref_bits r) f.

Definition is_tracked (r : t) (f : nat) : bool :=
  match ref_bits r !! f with
  | Some (Some _) => true
  | _ => false
  end.

(** Modelled from the spec: [ClockReplacer::Pin] is Remove of section 4.1:
    it marks the frame non-evictable; a no-op if the frame is not tracked. *)
Definition Pin (f : nat) (r : t) : t :=
  mk (<[f := None]> (ref_bits r)) (clock_hand r).

(** Modelled from the spec: [ClockReplacer::Unpin] is Track of section 4.1:
    it marks the frame evictable with its recency bit set; a no-op if the
    frame is already tracked. *)
Definition Unpin (f : nat) (r : t) : t :=
  match ref_bits r !! f with
  | Some None => mk (<[f := Some true]> (ref_bits r)) (clock_hand r)
  | _ => r
  end.

(** The next slot in the circular order of [n] slots. *)
Definition advance (n hand : nat) : nat :=
  if decide (S hand < n) then S hand else 0.

(** Modelled from the spec: the scan of [ClockReplacer::Victim] (section
    4.1).  A set recency bit is cleared and the hand advances; the first
    tracked frame whose bit is already clear is selected and removed from
    tracking.  [fuel] bounds the number of slots visited. *)
Fixpoint sweep (fuel : nat) (bits : list (option bool)) (hand : nat)
  : option (nat * t) :=
  match fuel with
  | O => None
  | S fuel' =>
      match bits !! hand with
      | Some (Some true) =>
          sweep fuel' (<[hand := Some false]> bits) (advance (length bits) hand)
      | Some (Some false) =>
          Some (hand, mk (<[hand := None]> bits) (advance (length bits) hand))
      | _ => sweep fuel' bits (advance (length bits) hand)
      end
  end.

(** Modelled from the spec: [ClockReplacer::Victim] (section 4.1) returns the
    selected frame and the replacer without it, or [None] when no frame is
    tracked.  Two turns of the clock (and one step to bring the hand in
    range) are enough to find a victim when a frame is tracked: lemma
    [Victim_None_iff]. *)
Definition Victim (r : t) : option (nat * t) :=
  sweep (S (2 * length (ref_bits r))) (ref_bits r) (clock_hand r).

End ClockReplacer.

(** ** The buffer pool *)

(** The member variables of [BufferPoolManager].  [log_manager_] is stored by
    the constructor and never read; it is left out. *)
Record BufferPoolManager : Type := mkBPM {
  pool_size_ : nat;
  pages_ : list Page;
  page_table_ : gmap Z nat;
  free_list_ : list nat;
  replacer_ : ClockReplacer.t;
  disk_manager_ : DiskManager.t;
  latch_ : bool   (* [true] while the mutex is held *)
}.

Definition set_pages (x : list Page) (s : BufferPoolManager) :=
  mkBPM (pool_size_ s) x (page_table_ s) (free_list_ s) (replacer_ s)
        (disk_manager_ s) (latch_ s).
Definition set_page_table (x : gmap Z nat) (s : BufferPoolManager) :=
  mkBPM (pool_size_ s) (pages_ s) x (free_list_ s) (replacer_ s)
        (disk_manager_ s) (latch_ s).
Definition set_free_list (x : list nat) (s : BufferPoolManager) :=
  mkBPM (pool_size_ s) (pages_ s) (page_table_ s) x (replacer_ s)
        (disk_manager_ s) (latch_ s).
Definition set_replacer (x : ClockReplacer.t) (s : BufferPoolManager) :=
  mkBPM (pool_size_ s) (pages_ s) (page_table_ s) (free_list_ s) x
        (disk_manager_ s) (latch_ s).
Definition set_disk_manager (x : DiskManager.t) (s : BufferPoolManager) :=
  mkBPM (pool_size_ s) (pages_ s) (page_table_ s) (free_list_ s) (replacer_ s)
        x (latch_ s).
Definition set_latch (x : bool) (s : BufferPoolManager) :=
  mkBPM (pool_size_ s) (pages_ s) (page_table_ s) (free_list_ s) (replacer_ s)
        (disk_manager_ s) x.

(** The constructor: every frame is fresh and on the free list, in the order
    of the frame ids. *)
Definition BufferPoolManager_new (pool_size : nat) (disk : DiskManager.t)
  : BufferPoolManager :=
  mkBPM pool_size (repeat Page_new pool_size) ∅ (seq 0 pool_size)
        (ClockReplacer.new pool_size) disk false.

(** [pages_[f]] *)
Definition page (s : BufferPoolManager) (f : nat) : Page := pages_ s !!! f.

(** [pages_[f] = g (pages_[f])] *)
Definition upd_page (f : nat) (g : Page → Page) (s : BufferPoolManager)
  : BufferPoolManager :=
  set_pages (<[f := g (page s f)]> (pages_ s)) s.

(** [replacer_->Pin(f)], [replacer_->Unpin(f)] *)
Definition replacer_Pin (f : nat) (s : BufferPoolManager) :=
  set_replacer (ClockReplacer.Pin f (replacer_ s)) s.
Definition replacer_Unpin (f : nat) (s : BufferPoolManager) :=
  set_replacer (ClockReplacer.Unpin f (replacer_ s)) s.

(** [disk_manager_->WritePage(page_id, pages_[f].data_)] *)
Definition disk_WritePage (page_id : Z) (f : nat) (s : BufferPoolManager) :=
  set_disk_manager
    (DiskManager.WritePage page_id (data_ (page s f)) (disk_manager_ s)) s.

(** [disk_manager_->ReadPage(page_id, pages_[f].data_)] *)
Definition disk_ReadPage (page_id : Z) (f : nat) (s : BufferPoolManager) :=
  let '(buf, d) :=
    DiskManager.ReadPage page_id (data_ (page s f)) (disk_manager_ s) in
  upd_page f (set_data buf) (set_disk_manager d s).

(** The result of a call. *)
Inductive outcome (A : Type) : Type :=
| Returns (s : BufferPoolManager) (r : A)
| Blocks.
Arguments Returns {A} s r.
Arguments Blocks {A}.

(** [latch_.lock()]: the mutex is not re-entrant; when it is held the caller
    waits, and within one thread of calls nobody is left to release it. *)
Definition lock {A : Type} (s : BufferPoolManager)
    (body : BufferPoolManager → outcome A) : outcome A :=
  if latch_ s then Blocks else body (set_latch true s).

(** [latch_.unlock()] *)
Definition unlock (s : BufferPoolManager) : BufferPoolManager :=
  set_latch false s.

(** [BufferPoolManager::FetchPageImpl] *)
Definition FetchPageImpl (page_id : Z) (s0 : BufferPoolManager)
  : outcome (option nat) :=
  lock s0 (λ s,
    match page_table_ s !! page_id with
    | Some reqFrame =>
        let s := replacer_Pin reqFrame s in
        (* pages_[reqFrame].pin_count_++ *)
        let s := upd_page reqFrame
                   (λ p, set_pin_count (int_wrap (pin_count_ p + 1)) p) s in
        let s := unlock s in
        Returns s (Some reqFrame)
    | None =>
        match free_list_ s with
        | reqFrame :: rest =>
            (* free_list_.front(); free_list_.pop_front() *)
            let s := set_free_list rest s in
            let s := replacer_Pin reqFrame s in
            (* pages_[reqFrame].pin_count_++ *)
            let s := upd_page reqFrame
                       (λ p, set_pin_count (int_wrap (pin_count_ p + 1)) p) s in
            let s := upd_page reqFrame ResetMemory s in
            let s := disk_ReadPage page_id reqFrame s in
            let s := upd_page reqFrame (set_page_id page_id) s in
            let s := upd_page reqFrame (set_is_dirty false) s in
            let s := set_page_table (<[page_id := reqFrame]> (page_table_ s)) s in
            let s := unlock s in
            Returns s (Some reqFrame)
        | [] =>
            match ClockReplacer.Victim (replacer_ s) with
            | None =>
                (* return nullptr; the latch is not released *)
                Returns s None
            | Some (reqFrame, r) =>
                let s := set_replacer r s in
                let replacerPage := page_id_ (page s reqFrame) in
                let s :=
                  if is_dirty_ (page s reqFrame)
                  then upd_page reqFrame (set_is_dirty false)
                         (disk_WritePage page_id reqFrame s)
                  else s in
                let s := replacer_Pin reqFrame s in
                let s := upd_page reqFrame ResetMemory s in
                let s := set_page_table (delete replacerPage (page_table_ s)) s in
                let s := disk_ReadPage page_id reqFrame s in
                (* pages_[reqFrame].pin_count_ += 1 *)
                let s := upd_page reqFrame
                           (λ p, set_pin_count (int_wrap (pin_count_ p + 1)) p) s in
                let s := upd_page reqFrame (set_page_id page_id) s in
                let s := upd_page reqFrame (set_is_dirty false) s in
                let s := set_page_table (<[page_id := reqFrame]> (page_table_ s)) s in
                let s := unlock s in
                Returns s (Some reqFrame)
            end
        end
    end).

(** [BufferPoolManager::UnpinPageImpl] *)
Definition UnpinPageImpl (page_id : Z) (is_dirty : bool) (s0 : BufferPoolManager)
  : outcome bool :=
  lock s0 (λ s,
    match page_table_ s !! page_id with
    | None =>
        let s := unlock s in
        Returns s true
    | Some targetFrame =>
        if decide (pin_count_ (page s targetFrame) ≤ 0)%Z
        then
          let s := unlock s in
          Returns s false
        else
          let s :=
            if is_dirty then upd_page targetFrame (set_is_dirty is_dirty) s
            else s in
          (* pages_[targetFrame].pin_count_-- *)
          let s := upd_page targetFrame
                     (λ p, set_pin_count (int_wrap (pin_count_ p - 1)) p) s in
          let s :=
            if decide (pin_count_ (page s targetFrame) = 0%Z)
            then replacer_Unpin targetFrame s
            else s in
          let s := unlock s in
          Returns s true
    end).

(** [BufferPoolManager::FlushPageImpl]: the latch is not touched. *)
Definition FlushPageImpl (page_id : Z) (s : BufferPoolManager)
  : BufferPoolManager * bool :=
  match page_table_ s !! page_id with
  | Some targetFrame =>
      if is_dirty_ (page s targetFrame)
      then
        let s := disk_WritePage page_id targetFrame s in
        let s := upd_page targetFrame (set_is_dirty false) s in
        (s, true)
      else (s, true)
  | None => (s, false)
  end.

(** [BufferPoolManager::NewPageImpl]: the result is the page id stored through
    the output parameter together with the frame, or [None] for [nullptr]. *)
Definition NewPageImpl (s0 : BufferPoolManager) : outcome (option (Z * nat)) :=
  lock s0 (λ s,
    match last (free_list_ s) with
    | Some freeFrame =>
        (* free_list_.back(); free_list_.pop_back() *)
        let s := set_free_list (removelast (free_list_ s)) s in
        let '(page_id, d) := DiskManager.AllocatePage (disk_manager_ s) in
        let s := set_disk_manager d s in
        let s := upd_page freeFrame ResetMemory s in
        let s := upd_page freeFrame (set_is_dirty false) s in
        let s := upd_page freeFrame (set_page_id page_id) s in
        let s := upd_page freeFrame (set_pin_count 1) s in
        let s := set_page_table (<[page_id := freeFrame]> (page_table_ s)) s in
        let s := replacer_Pin freeFrame s in
        let s := unlock s in
        Returns s (Some (page_id, freeFrame))
    | None =>
        match ClockReplacer.Victim (replacer_ s) with
        | None =>
            let s := unlock s in
            Returns s None
        | Some (newCandidFrame, r) =>
            let s := set_replacer r s in
            let evictingPage := page_id_ (page s newCandidFrame) in
            let s :=
              if is_dirty_ (page s newCandidFrame)
              then disk_WritePage evictingPage newCandidFrame s
              else s in
            let s := set_page_table (delete evictingPage (page_table_ s)) s in
            let '(page_id, d) := DiskManager.AllocatePage (disk_manager_ s) in
            let s := set_disk_manager d s in
            let s := upd_page newCandidFrame ResetMemory s in
            let s := upd_page newCandidFrame (set_is_dirty false) s in
            let s := upd_page newCandidFrame (set_pin_count 1) s in
            let s := upd_page newCandidFrame (set_page_id page_id) s in
            let s := replacer_Pin newCandidFrame s in
            let s := set_page_table (<[page_id := newCandidFrame]> (page_table_ s)) s in
            let s := unlock s in
            Returns s (Some (page_id, newCandidFrame))
        end
    end).

(** [BufferPoolManager::DeletePageImpl] *)
Definition DeletePageImpl (page_id : Z) (s0 : BufferPoolManager)
  : outcome bool :=
  lock s0 (λ s,
    match page_table_ s !! page_id with
    | Some targetFrame =>
        if decide (page_id_ (page s targetFrame) = 0%Z)
        then
          let s :=
            set_disk_manager
              (DiskManager.DeallocatePage page_id (disk_manager_ s)) s in
          let s := set_page_table (delete page_id (page_table_ s)) s in
          let s := upd_page targetFrame ResetMemory s in
          let s := upd_page targetFrame (set_is_dirty false) s in
          let s := upd_page targetFrame (set_pin_count 0) s in
          let s := set_free_list (free_list_ s ++ [targetFrame]) s in
          let s := unlock s in
          Returns s true
        else
          let s := unlock s in
          Returns s false
    | None =>
        let s := unlock s in
        Returns s true
    end).

(** The body of the loop of [FlushAllPagesImpl] for frame [i]; the result of
    [FlushPageImpl] is dropped. *)
Definition flush_frame (s : BufferPoolManager) (i : nat) : BufferPoolManager :=
  if is_dirty_ (page s i)
  then fst (FlushPageImpl (page_id_ (page s i)) s)
  else s.

(** [BufferPoolManager::FlushAllPagesImpl]: the loop over the frames calls
    [FlushPageImpl] with the latch held. *)
Definition FlushAllPagesImpl (s0 : BufferPoolManager) : outcome unit :=
  lock s0 (λ s,
    let s := foldl flush_frame s (seq 0 (pool_size_ s)) in
    let s := unlock s in
    Returns s tt).

(** ** Sequences of calls *)

(** The public operations, and a client storing bytes through the pointer a
    fetch returned ([WriteData]). *)
Inductive op : Type :=
| FetchPage (page_id : Z)
| UnpinPage (page_id : Z) (is_dirty : bool)
| FlushPage (page_id : Z)
| NewPage
| DeletePage (page_id : Z)
| FlushAllPages
| WriteData (frame : nat) (buf : list byte).

Definition state_of {A : Type} (o : outcome A) : option BufferPoolManager :=
  match o with
  | Returns s _ => Some s
  | Blocks => None
  end.

(** The state a call returns in; [None] when it never returns. *)
Definition run_op (o : op) (s : BufferPoolManager) : option BufferPoolManager :=
  match o with
  | FetchPage page_id => state_of (FetchPageImpl page_id s)
  | UnpinPage page_id is_dirty => state_of (UnpinPageImpl page_id is_dirty s)
  | FlushPage page_id => Some (fst (FlushPageImpl page_id s))
  | NewPage => state_of (NewPageImpl s)
  | DeletePage page_id => state_of (DeletePageImpl page_id s)
  | FlushAllPages => state_of (FlushAllPagesImpl s)
  | WriteData f buf => Some (upd_page f (set_data buf) s)
  end.

Fixpoint run (ops : list op) (s : BufferPoolManager) : option BufferPoolManager :=
  match ops with
  | [] => Some s
  | o :: ops' =>
      match run_op o s with
      | Some s' => run ops' s'
      | None => None
      end
  end.

(** States reachable from construction. *)
Inductive reachable : BufferPoolManager → Prop :=
| reachable_new pool_size disk :
    reachable (BufferPoolManager_new pool_size disk)
| reachable_step s o s' :
    reachable s → run_op o s = Some s' → reachable s'.

(** ** Invariant of the reachable states *)

(** Number of slots from [hand] forward to [h] on a clock of [n] slots (the
    measure for the termination of [ClockReplacer.sweep]). *)
Definition clock_dist (n hand h : nat) : nat :=
  if decide (hand ≤ h) then h - hand else n - hand + h.

(** What every call maintains.  The frame ids of the free list, of the page
    table and of the replacer are valid indices of [pages_]; a frame of the
    free list is unpinned and clean; a page-table entry leads to a frame that
    records this page id and is not free; pin counts are values of [int];
    the latch is only ever left held when no frame is free and none is
    tracked. *)
Record Inv (s : BufferPoolManager) : Prop := mkInv {
  Inv_pages : length (pages_ s) = pool_size_ s;
  Inv_replacer : length (ClockReplacer.ref_bits (replacer_ s)) = pool_size_ s;
  Inv_free_lt : ∀ f, f ∈ free_list_ s → f < pool_size_ s;
  Inv_free_NoDup : NoDup (free_list_ s);
  Inv_free_clean : ∀ f, f ∈ free_list_ s →
    pin_count_ (page s f) = 0%Z ∧ is_dirty_ (page s f) = false;
  Inv_table : ∀ page_id f, page_table_ s !! page_id = Some f →
    f < pool_size_ s ∧ page_id_ (page s f) = page_id ∧ f ∉ free_list_ s;
  Inv_range : ∀ f, (INT_MIN ≤ pin_count_ (page s f) ≤ INT_MAX)%Z;
  Inv_latch : latch_ s = true →
    free_list_ s = [] ∧ ∀ f, ¬ ClockReplacer.tracked (replacer_ s) f
}.

(** The disk after the write-back step of the eviction path of
    [FetchPageImpl]: a dirty victim's buffer goes out under the page id that
    is passed to [WritePage] there, the one being fetched. *)
Definition fetch_write_back (page_id : Z) (victim : Page) (d : DiskManager.t)
  : DiskManager.t :=
  if is_dirty_ victim then DiskManager.WritePage page_id (data_ victim) d else d.

(** The disk after the write-back step of the eviction path of
    [NewPageImpl]: a dirty victim's buffer goes out under the victim's own
    page id. *)
Definition new_write_back (victim : Page) (d : DiskManager.t) : DiskManager.t :=
  if is_dirty_ victim
  then DiskManager.WritePage (page_id_ victim) (data_ victim) d
  else d.

(** ** The frame classes of section 3 *)

(** A frame is occupied when it records a page id other than the sentinel. *)
Definition occupied (s : BufferPoolManager) (f : nat) : Prop :=
  page_id_ (page s f) ≠ INVALID_PAGE_ID.

Definition on_free_list (s : BufferPoolManager) (f : nat) : Prop :=
  f ∈ free_list_ s.

(** Occupied, pin count above 0, absent from the replacer. *)
Definition pinned (s : BufferPoolManager) (f : nat) : Prop :=
  occupied s f ∧ (0 < pin_count_ (page s f))%Z ∧
  ¬ ClockReplacer.tracked (replacer_ s) f.

(** Occupied, pin count 0, present in the replacer (a slot per frame: at
    most once). *)
Definition evictable (s : BufferPoolManager) (f : nat) : Prop :=
  occupied s f ∧ pin_count_ (page s f) = 0%Z ∧
  ClockReplacer.tracked (replacer_ s) f.

Definition exactly_one (A B C : Prop) : Prop :=
  (A ∧ ¬ B ∧ ¬ C) ∨ (¬ A ∧ B ∧ ¬ C) ∨ (¬ A ∧ ¬ B ∧ C).

(** Invariant 1 of section 3. *)
Definition frame_partition (s : BufferPoolManager) : Prop :=
  ∀ f, f < pool_size_ s →
    exactly_one (on_free_list s f) (pinned s f) (evictable s f).

(** Invariant 2 of section 3: the page table maps exactly the occupied
    frames, and no two page ids lead to one frame. *)
Definition page_table_exact (s : BufferPoolManager) : Prop :=
  (∀ f, f < pool_size_ s →
     occupied s f ↔ ∃ page_id, page_table_ s !! page_id = Some f) ∧
  (∀ p q f, page_table_ s !! p = Some f → page_table_ s !! q = Some f → p = q).

(** No frame can be acquired: the free list is empty and the replacer has no
    victim. *)
Definition exhausted (s : BufferPoolManager) : Prop :=
  free_list_ s = [] ∧ ClockReplacer.Victim (replacer_ s) = None.

(** ** Concrete pools for the examples *)

(** A disk that holds the two zero-filled pages 0 and 1. *)
Definition disk01 : DiskManager.t :=
  DiskManager.mk (<[0%Z := zero_buffer]> (<[1%Z := zero_buffer]> ∅)) 2 [].

(** A buffer that starts with a marker byte. *)
Definition marker : list byte := x2a :: repeat x00 (PAGE_SIZE - 1).

(** The pool of one frame after FetchPage(0), a write of [marker] through the
    returned handle and UnpinPage(0, true): page 0 is resident in frame 0,
    dirty, unpinned and tracked by the replacer (lemma [run_dirty_page0]). *)
Definition dirty_page0 : BufferPoolManager :=
  mkBPM 1 [mkPage marker 0 0 true] (<[0%Z := 0]> ∅) []
        (ClockReplacer.mk [Some true] 0)
        (DiskManager.mk (DiskManager.contents disk01) 2
                        [DiskManager.ReadPageCall 0])
        false.

(** The pool of one frame after FetchPage(0): page 0 is resident in frame 0
    and pinned once (lemma [run_pinned_page0]). *)
Definition pinned_page0 : BufferPoolManager :=
  mkBPM 1 [mkPage zero_buffer 0 1 false] (<[0%Z := 0]> ∅) []
        (ClockReplacer.mk [None] 0)
        (DiskManager.mk (DiskManager.contents disk01) 2
                        [DiskManager.ReadPageCall 0])
        false.

(** The pool of one frame after FetchPage(0); FetchPage(1): page 0 is
    pinned, the second call found no frame and left the latch held. *)
Definition latched_page0 : BufferPoolManager :=
  mkBPM 1 [mkPage zero_buffer 0 1 false] (<[0%Z := 0]> ∅) []
        (ClockReplacer.mk [None] 0)
        (DiskManager.mk (DiskManager.contents disk01) 2
                        [DiskManager.ReadPageCall 0])
        true.

(** The pool of one frame in which page 0 is resident with pin count [k]:
    [pinned_page0] after [k - 1] further calls of FetchPage(0). *)
Definition page0_pinned (k : Z) : BufferPoolManager :=
  mkBPM 1 [mkPage zero_buffer 0 k false] (<[0%Z := 0]> ∅) []
        (ClockReplacer.mk [None] 0)
        (DiskManager.mk (DiskManager.contents disk01) 2
                        [DiskManager.ReadPageCall 0])
        false.

(** The pool of one frame after FetchPage(1) and UnpinPage(1, false): page 1
    is resident in frame 0 and nobody holds it (lemma
    [run_unpinned_page1]). *)
Definition unpinned_page1 : BufferPoolManager :=
  mkBPM 1 [mkPage zero_buffer 1 0 false] (<[1%Z := 0]> ∅) []
        (ClockReplacer.mk [Some true] 0)
        (DiskManager.mk (DiskManager.contents disk01) 2
                        [DiskManager.ReadPageCall 1])
        false.

(** ** Further properties of the reachable states *)

(** A frame the replacer tracks has pin count 0. *)
Definition tracked_unpinned (s : BufferPoolManager) : Prop :=
  ∀ f, ClockReplacer.tracked (replacer_ s) f → pin_count_ (page s f) = 0%Z.

(** Pin counts mean what they say: none is negative, and a resident frame
    with pin count 0 is tracked by the replacer.  This holds as long as no
    pin count has overflowed ([reachable_without_overflow]). *)
Definition pin_counts_sound (s : BufferPoolManager) : Prop :=
  (∀ f, (0 ≤ pin_count_ (page s f))%Z) ∧
  (∀ page_id f, page_table_ s !! page_id = Some f →
     pin_count_ (page s f) = 0%Z → ClockReplacer.tracked (replacer_ s) f).

(** The call does not overflow a pin count: it is not a FetchPage of a
    resident page whose pin count is [INT_MAX]. *)
Definition no_overflow (o : op) (s : BufferPoolManager) : Prop :=
  ∀ page_id f, o = FetchPage page_id → page_table_ s !! page_id = Some f →
    (pin_count_ (page s f) < INT_MAX)%Z.

(** States reachable from construction by calls none of which overflows a
    pin count. *)
Inductive reachable_without_overflow : BufferPoolManager → Prop :=
| reachable_without_overflow_new pool_size disk :
    reachable_without_overflow (BufferPoolManager_new pool_size disk)
| reachable_without_overflow_step s o s' :
    reachable_without_overflow s → no_overflow o s → run_op o s = Some s' →
    reachable_without_overflow s'.

(** [t] is [s] after some of its frames were flushed: the disk received the
    buffers of resident frames under their page ids, dirty flags were
    cleared, nothing else differs. *)
Record flushed (s t : BufferPoolManager) : Prop := mkFlushed {
  flushed_pool_size : pool_size_ t = pool_size_ s;
  flushed_length : length (pages_ t) = length (pages_ s);
  flushed_page_table : page_table_ t = page_table_ s;
  flushed_free_list : free_list_ t = free_list_ s;
  flushed_replacer : replacer_ t = replacer_ s;
  flushed_latch : latch_ t = latch_ s;
  flushed_next_page_id :
    DiskManager.next_page_id (disk_manager_ t)
    = DiskManager.next_page_id (disk_manager_ s);
  flushed_frames : ∀ g,
    data_ (page t g) = data_ (page s g) ∧
    page_id_ (page t g) = page_id_ (page s g) ∧
    pin_count_ (page t g) = pin_count_ (page s g) ∧
    (is_dirty_ (page t g) = true → is_dirty_ (page s g) = true);
  flushed_written : ∀ page_id f,
    page_table_ s !! page_id = Some f →
    is_dirty_ (page s f) = true → is_dirty_ (page t f) = false →
    DiskManager.contents (disk_manager_ t) !! page_id
    = Some (data_ (page s f));
  flushed_untouched : ∀ page_id,
    page_table_ s !! page_id = None →
    DiskManager.contents (disk_manager_ t) !! page_id
    = DiskManager.contents (disk_manager_ s) !! page_id
}.

(** ** The clock replacer *)

Section ClockReplacerFacts.
Import ClockReplacer.

Lemma advance_lt n hand : 0 < n → advance n hand < n.
Proof. unfold advance. case_decide; lia. Qed.

Lemma clock_dist_lt n hand h : hand < n → h < n → clock_dist n hand h < n.
Proof. unfold clock_dist. case_decide; lia. Qed.

Lemma clock_dist_advance n hand h :
  hand < n → h < n → hand ≠ h →
  S (clock_dist n (advance n hand) h) = clock_dist n hand h.
Proof. unfold clock_dist, advance. repeat case_decide; lia. Qed.

Lemma tracked_in_insert_ne bits hand x g :
  g ≠ hand → tracked_in (<[hand := x]> bits) g ↔ tracked_in bits g.
Proof. intros Hne. unfold tracked_in. by rewrite list_lookup_insert_ne. Qed.

Lemma tracked_in_lt bits g : tracked_in bits g → g < length bits.
Proof. intros [b Hb]. by eapply lookup_lt_Some. Qed.

Lemma sweep_untracked fuel : ∀ bits hand,
  (∀ f, ¬ tracked_in bits f) → sweep fuel bits hand = None.
Proof.
  induction fuel as [|fuel IH]; intros bits hand Hnone; [done|].
  simpl. destruct (bits !! hand) as [[b|]|] eqn:E; try by apply IH.
  exfalso. apply (Hnone hand). by exists b.
Qed.

Lemma sweep_Some fuel : ∀ bits hand f r,
  sweep fuel bits hand = Some (f, r) →
  tracked_in bits f ∧ length (ref_bits r) = length bits ∧
  ∀ g, tracked r g ↔ tracked_in bits g ∧ g ≠ f.
Proof.
  induction fuel as [|fuel IH]; intros bits hand f r; [done|].
  simpl. destruct (bits !! hand) as [[[]|]|] eqn:E; intros Hs.
  - apply IH in Hs as (Hf & Hlen & Htr).
    rewrite length_insert in Hlen.
    assert (Hh : ∀ g, tracked_in (<[hand:=Some false]> bits) g ↔ tracked_in bits g).
    { intros g. destruct (decide (g = hand)) as [->|Hne].
      - unfold tracked_in. rewrite list_lookup_insert_eq by (by eapply lookup_lt_Some).
        rewrite E. split; eauto.
      - by apply tracked_in_insert_ne. }
    split; [by apply Hh|]. split; [done|].
    intros g. rewrite Htr. by rewrite Hh.
  - injection Hs as <- <-. split; [by exists false|].
    split; [apply length_insert|].
    intros g. unfold tracked. simpl. destruct (decide (g = hand)) as [->|Hne].
    + unfold tracked_in. rewrite list_lookup_insert_eq by (by eapply lookup_lt_Some).
      split; [by intros [? ?]|by intros [_ ?]].
    + rewrite tracked_in_insert_ne by done. tauto.
  - by apply IH in Hs.
  - by apply IH in Hs.
Qed.

Lemma sweep_finds_clear fuel : ∀ bits hand h,
  hand < length bits → bits !! h = Some (Some false) →
  clock_dist (length bits) hand h < fuel →
  is_Some (sweep fuel bits hand).
Proof.
  induction fuel as [|fuel IH]; intros bits hand h Hhand Hh Hd; [lia|].
  assert (Hhn : h < length bits) by (by eapply lookup_lt_Some).
  simpl. destruct (bits !! hand) as [[[]|]|] eqn:E.
  - assert (hand ≠ h) by congruence.
    apply (IH _ _ h); rewrite ?length_insert.
    + apply advance_lt. lia.
    + by rewrite list_lookup_insert_ne.
    + pose proof (clock_dist_advance (length bits) hand h). lia.
  - eauto.
  - assert (hand ≠ h) by congruence.
    apply (IH _ _ h); [apply advance_lt; lia|done|].
    pose proof (clock_dist_advance (length bits) hand h). lia.
  - apply lookup_ge_None in E. lia.
Qed.

Lemma sweep_finds_tracked fuel : ∀ bits hand h,
  hand < length bits → tracked_in bits h →
  clock_dist (length bits) hand h + length bits < fuel →
  is_Some (sweep fuel bits hand).
Proof.
  induction fuel as [|fuel IH]; intros bits hand h Hhand Hh Hd; [lia|].
  assert (Hhn : h < length bits) by (by eapply tracked_in_lt).
  simpl. destruct (bits !! hand) as [[[]|]|] eqn:E.
  - destruct (decide (hand = h)) as [->|Hne].
    + apply (sweep_finds_clear _ _ _ h); rewrite ?length_insert.
      * apply advance_lt. lia.
      * by rewrite list_lookup_insert_eq.
      * pose proof (clock_dist_lt (length bits) (advance (length bits) h) h).
        pose proof (advance_lt (length bits) h). lia.
    + apply (IH _ _ h); rewrite ?length_insert.
      * apply advance_lt. lia.
      * by apply tracked_in_insert_ne.
      * pose proof (clock_dist_advance (length bits) hand h). lia.
  - eauto.
  - assert (hand ≠ h). { intros ->. destruct Hh as [b Hb]. congruence. }
    apply (IH _ _ h); [apply advance_lt; lia|done|].
    pose proof (clock_dist_advance (length bits) hand h). lia.
  - apply lookup_ge_None in E. lia.
Qed.

(** [Victim] reports that there is no victim exactly when no frame is
    tracked. *)
Lemma Victim_None_iff r : Victim r = None ↔ ∀ f, ¬ tracked r f.
Proof.
  split.
  - intros Hv f Hf. unfold Victim in Hv.
    assert (Hfn : f < length (ref_bits r)) by (by eapply tracked_in_lt).
    assert (is_Some (sweep (S (2 * length (ref_bits r))) (ref_bits r) (clock_hand r))) as [x Hx];
      [|congruence].
    destruct (decide (clock_hand r < length (ref_bits r))) as [Hlt|Hge].
    + apply (sweep_finds_tracked _ _ _ f); [done..|].
      pose proof (clock_dist_lt (length (ref_bits r)) (clock_hand r) f). lia.
    + simpl. rewrite (proj2 (lookup_ge_None _ _)) by lia.
      apply (sweep_finds_tracked _ _ _ f); [apply advance_lt; lia|done|].
      unfold advance. rewrite decide_False by lia.
      unfold clock_dist. rewrite decide_True by lia. lia.
  - intros Hnone. by apply sweep_untracked.
Qed.

Lemma Victim_Some r f r' :
  Victim r = Some (f, r') →
  tracked r f ∧ length (ref_bits r') = length (ref_bits r) ∧
  ∀ g, tracked r' g ↔ tracked r g ∧ g ≠ f.
Proof. apply sweep_Some. Qed.

(** Second chance: the hand at frame 0 clears the bit of frame 0, selects
    frame 1 whose bit is clear, and stops behind it. *)
Example Victim_second_chance :
  Victim (mk [Some true; Some false; Some true] 0)
  = Some (1, mk [Some false; None; Some true] 2).
Proof. reflexivity. Qed.

(** All bits set: one turn clears them, the second turn selects the frame
    the hand started at. *)
Example Victim_full_turn :
  Victim (mk [None; Some true; Some true] 1)
  = Some (1, mk [None; None; Some false] 2).
Proof. reflexivity. Qed.

Lemma tracked_Pin f r g : tracked (Pin f r) g ↔ tracked r g ∧ g ≠ f.
Proof.
  unfold tracked, Pin. simpl. destruct (decide (g = f)) as [->|Hne].
  - split; [|by intros [_ ?]]. intros [b Hb].
    destruct (decide (f < length (ref_bits r))).
    + rewrite list_lookup_insert_eq in Hb by done. done.
    + rewrite list_insert_ge in Hb by lia. apply lookup_lt_Some in Hb. lia.
  - rewrite tracked_in_insert_ne by done. tauto.
Qed.

Lemma ClockReplacer_length_Pin f r : length (ref_bits (Pin f r)) = length (ref_bits r).
Proof. apply length_insert. Qed.

Lemma tracked_Unpin f r g :
  tracked (Unpin f r) g ↔ tracked r g ∨ (g = f ∧ f < length (ref_bits r)).
Proof.
  unfold tracked, Unpin. destruct (ref_bits r !! f) as [[b|]|] eqn:E; simpl.
  - split; [tauto|]. intros [?|[-> _]]; [done|by exists b].
  - assert (f < length (ref_bits r)) by (by eapply lookup_lt_Some).
    destruct (decide (g = f)) as [->|Hne].
    + split; [tauto|]. intros _. exists true. by rewrite list_lookup_insert_eq.
    + rewrite tracked_in_insert_ne by done. split; [tauto|]. intros [?|[? _]]; done.
  - apply lookup_ge_None in E. split; [tauto|]. intros [?|[_ ?]]; [done|lia].
Qed.

Lemma ClockReplacer_length_Unpin f r : length (ref_bits (Unpin f r)) = length (ref_bits r).
Proof.
  unfold Unpin. destruct (ref_bits r !! f) as [[b|]|]; simpl; try done.
  apply length_insert.
Qed.

Lemma is_tracked_spec r f : is_tracked r f = true ↔ tracked r f.
Proof.
  unfold is_tracked, tracked, tracked_in.
  destruct (ref_bits r !! f) as [[b|]|]; split; try done; eauto; by intros [? ?].
Qed.

Lemma tracked_new n f : ¬ tracked (new n) f.
Proof.
  intros [b Hb]. simpl in Hb. apply list_elem_of_lookup_2 in Hb.
  apply list_elem_of_In, repeat_spec in Hb. done.
Qed.
End ClockReplacerFacts.

(** ** The control paths of the operations *)

Ltac int_lia := unfold INT_MIN, INT_MAX in *; lia.

Lemma int_wrap_range z : (INT_MIN ≤ int_wrap z ≤ INT_MAX)%Z.
Proof.
  unfold int_wrap.
  pose proof (Z.mod_pos_bound (z + 2147483648) 4294967296). int_lia.
Qed.

Lemma int_wrap_id z : (INT_MIN ≤ z ≤ INT_MAX)%Z → int_wrap z = z.
Proof.
  intros Hz. unfold int_wrap. rewrite Z.mod_small by int_lia. lia.
Qed.

Lemma int_wrap_overflow : int_wrap (INT_MAX + 1) = INT_MIN.
Proof. reflexivity. Qed.

Ltac collapse_pages :=
  repeat (rewrite ?list_insert_insert_eq;
          rewrite ?list_lookup_total_insert_eq by done).

Lemma unlock_lock s : latch_ s = false → unlock (set_latch true s) = s.
Proof. destruct s; simpl; by intros ->. Qed.

Lemma FetchPageImpl_hit s page_id f :
  latch_ s = false → page_table_ s !! page_id = Some f →
  FetchPageImpl page_id s =
  Returns (mkBPM (pool_size_ s)
             (<[f := set_pin_count (int_wrap (pin_count_ (page s f) + 1))
                                   (page s f)]> (pages_ s))
             (page_table_ s) (free_list_ s)
             (ClockReplacer.Pin f (replacer_ s)) (disk_manager_ s) false)
          (Some f).
Proof.
  intros Hl Ht. unfold FetchPageImpl, lock. rewrite Hl. simpl. by rewrite Ht.
Qed.

Lemma FetchPageImpl_free s page_id f rest :
  latch_ s = false → page_table_ s !! page_id = None →
  free_list_ s = f :: rest → f < length (pages_ s) →
  FetchPageImpl page_id s =
  Returns (mkBPM (pool_size_ s)
             (<[f := mkPage (default zero_buffer
                               (DiskManager.contents (disk_manager_ s) !! page_id))
                            page_id (int_wrap (pin_count_ (page s f) + 1))
                            false]> (pages_ s))
             (<[page_id := f]> (page_table_ s)) rest
             (ClockReplacer.Pin f (replacer_ s))
             (snd (DiskManager.ReadPage page_id zero_buffer (disk_manager_ s)))
             false)
          (Some f).
Proof.
  intros Hl Ht Hf Hlt. unfold FetchPageImpl, lock. rewrite Hl. simpl. rewrite Ht, Hf.
  unfold disk_ReadPage, upd_page, page. simpl. collapse_pages. reflexivity.
Qed.

Lemma FetchPageImpl_exhausted s page_id :
  latch_ s = false → page_table_ s !! page_id = None →
  free_list_ s = [] → ClockReplacer.Victim (replacer_ s) = None →
  FetchPageImpl page_id s = Returns (set_latch true s) None.
Proof.
  intros Hl Ht Hf Hv. unfold FetchPageImpl, lock. rewrite Hl. simpl.
  by rewrite Ht, Hf, Hv.
Qed.

Lemma FetchPageImpl_evict s page_id f r :
  latch_ s = false → page_table_ s !! page_id = None →
  free_list_ s = [] → ClockReplacer.Victim (replacer_ s) = Some (f, r) →
  f < length (pages_ s) →
  let d := fetch_write_back page_id (page s f) (disk_manager_ s) in
  FetchPageImpl page_id s =
  Returns (mkBPM (pool_size_ s)
             (<[f := mkPage (default zero_buffer (DiskManager.contents d !! page_id))
                            page_id (int_wrap (pin_count_ (page s f) + 1))
                            false]> (pages_ s))
             (<[page_id := f]> (delete (page_id_ (page s f)) (page_table_ s))) []
             (ClockReplacer.Pin f r)
             (snd (DiskManager.ReadPage page_id zero_buffer d))
             false)
          (Some f).
Proof.
  intros Hl Ht Hf Hv Hlt. destruct s as [n pg pt fl rp dm l]; simpl in *; subst.
  unfold FetchPageImpl, lock. simpl.
  rewrite Ht, Hv. unfold fetch_write_back, page. simpl.
  destruct (is_dirty_ (pg !!! f)) eqn:Hd;
    unfold disk_ReadPage, disk_WritePage, upd_page, page; simpl;
    collapse_pages; reflexivity.
Qed.

Lemma UnpinPageImpl_absent s page_id is_dirty :
  latch_ s = false → page_table_ s !! page_id = None →
  UnpinPageImpl page_id is_dirty s = Returns s true.
Proof.
  intros Hl Ht. unfold UnpinPageImpl, lock. rewrite Hl. simpl. rewrite Ht.
  by rewrite unlock_lock.
Qed.

Lemma UnpinPageImpl_unpinned s page_id is_dirty f :
  latch_ s = false → page_table_ s !! page_id = Some f →
  (pin_count_ (page s f) ≤ 0)%Z →
  UnpinPageImpl page_id is_dirty s = Returns s false.
Proof.
  intros Hl Ht Hp. unfold UnpinPageImpl, lock. rewrite Hl. simpl. rewrite Ht.
  change (page (set_latch true s) f) with (page s f).
  rewrite decide_True by done. by rewrite unlock_lock.
Qed.

Lemma UnpinPageImpl_pinned s page_id is_dirty f :
  latch_ s = false → page_table_ s !! page_id = Some f →
  (0 < pin_count_ (page s f))%Z → (pin_count_ (page s f) ≤ INT_MAX)%Z →
  f < length (pages_ s) →
  UnpinPageImpl page_id is_dirty s =
  Returns (mkBPM (pool_size_ s)
             (<[f := mkPage (data_ (page s f)) (page_id_ (page s f))
                            (pin_count_ (page s f) - 1)
                            (if is_dirty then true else is_dirty_ (page s f))]>
                (pages_ s))
             (page_table_ s) (free_list_ s)
             (if decide (pin_count_ (page s f) - 1 = 0)%Z
              then ClockReplacer.Unpin f (replacer_ s) else replacer_ s)
             (disk_manager_ s) false)
          true.
Proof.
  intros Hl Ht Hp Hmax Hlt.
  rewrite <- (int_wrap_id (pin_count_ (page s f) - 1)) by int_lia.
  unfold UnpinPageImpl, lock. rewrite Hl. simpl. rewrite Ht.
  change (page (set_latch true s) f) with (page s f).
  rewrite decide_False by lia.
  destruct is_dirty; unfold upd_page, page; simpl; collapse_pages; simpl;
    case_decide; reflexivity.
Qed.

Lemma FlushPageImpl_absent s page_id :
  page_table_ s !! page_id = None → FlushPageImpl page_id s = (s, false).
Proof. intros Ht. unfold FlushPageImpl. by rewrite Ht. Qed.

Lemma FlushPageImpl_clean s page_id f :
  page_table_ s !! page_id = Some f → is_dirty_ (page s f) = false →
  FlushPageImpl page_id s = (s, true).
Proof. intros Ht Hd. unfold FlushPageImpl. by rewrite Ht, Hd. Qed.

Lemma FlushPageImpl_dirty s page_id f :
  page_table_ s !! page_id = Some f → is_dirty_ (page s f) = true →
  FlushPageImpl page_id s =
  (mkBPM (pool_size_ s) (<[f := set_is_dirty false (page s f)]> (pages_ s))
         (page_table_ s) (free_list_ s) (replacer_ s)
         (DiskManager.WritePage page_id (data_ (page s f)) (disk_manager_ s))
         (latch_ s),
   true).
Proof. intros Ht Hd. unfold FlushPageImpl. by rewrite Ht, Hd. Qed.

Lemma NewPageImpl_free s f :
  latch_ s = false → last (free_list_ s) = Some f → f < length (pages_ s) →
  let page_id := DiskManager.next_page_id (disk_manager_ s) in
  NewPageImpl s =
  Returns (mkBPM (pool_size_ s)
             (<[f := mkPage zero_buffer page_id 1 false]> (pages_ s))
             (<[page_id := f]> (page_table_ s)) (removelast (free_list_ s))
             (ClockReplacer.Pin f (replacer_ s))
             (snd (DiskManager.AllocatePage (disk_manager_ s)))
             false)
          (Some (page_id, f)).
Proof.
  intros Hl Hf Hlt. unfold NewPageImpl, lock. rewrite Hl. simpl. rewrite Hf.
  unfold upd_page, page. simpl. collapse_pages. reflexivity.
Qed.

Lemma NewPageImpl_exhausted s :
  latch_ s = false → free_list_ s = [] →
  ClockReplacer.Victim (replacer_ s) = None →
  NewPageImpl s = Returns s None.
Proof.
  intros Hl Hf Hv. unfold NewPageImpl, lock. rewrite Hl. simpl. rewrite Hf, Hv.
  simpl. by rewrite unlock_lock.
Qed.

Lemma NewPageImpl_evict s f r :
  latch_ s = false → free_list_ s = [] →
  ClockReplacer.Victim (replacer_ s) = Some (f, r) → f < length (pages_ s) →
  let d := new_write_back (page s f) (disk_manager_ s) in
  let page_id := DiskManager.next_page_id (disk_manager_ s) in
  NewPageImpl s =
  Returns (mkBPM (pool_size_ s)
             (<[f := mkPage zero_buffer page_id 1 false]> (pages_ s))
             (<[page_id := f]> (delete (page_id_ (page s f)) (page_table_ s))) []
             (ClockReplacer.Pin f r)
             (snd (DiskManager.AllocatePage d))
             false)
          (Some (page_id, f)).
Proof.
  intros Hl Hf Hv Hlt. destruct s as [n pg pt fl rp dm l]; simpl in *; subst.
  unfold NewPageImpl, lock. simpl. rewrite Hv. unfold new_write_back, page. simpl.
  destruct (is_dirty_ (pg !!! f)) eqn:Hd;
    unfold disk_WritePage, upd_page, page; simpl; collapse_pages; reflexivity.
Qed.

Lemma DeletePageImpl_absent s page_id :
  latch_ s = false → page_table_ s !! page_id = None →
  DeletePageImpl page_id s = Returns s true.
Proof.
  intros Hl Ht. unfold DeletePageImpl, lock. rewrite Hl. simpl. rewrite Ht.
  by rewrite unlock_lock.
Qed.

Lemma DeletePageImpl_refused s page_id f :
  latch_ s = false → page_table_ s !! page_id = Some f →
  page_id_ (page s f) ≠ 0%Z →
  DeletePageImpl page_id s = Returns s false.
Proof.
  intros Hl Ht Hp. unfold DeletePageImpl, lock. rewrite Hl. simpl. rewrite Ht.
  change (page (set_latch true s) f) with (page s f).
  rewrite decide_False by done. by rewrite unlock_lock.
Qed.

Lemma DeletePageImpl_deleted s page_id f :
  latch_ s = false → page_table_ s !! page_id = Some f →
  page_id_ (page s f) = 0%Z → f < length (pages_ s) →
  DeletePageImpl page_id s =
  Returns (mkBPM (pool_size_ s)
             (<[f := mkPage zero_buffer (page_id_ (page s f)) 0 false]> (pages_ s))
             (delete page_id (page_table_ s)) (free_list_ s ++ [f])
             (replacer_ s)
             (DiskManager.DeallocatePage page_id (disk_manager_ s))
             false)
          true.
Proof.
  intros Hl Ht Hp Hlt. unfold DeletePageImpl, lock. rewrite Hl. simpl. rewrite Ht.
  change (page (set_latch true s) f) with (page s f).
  rewrite decide_True by done.
  unfold upd_page, page. simpl. collapse_pages. reflexivity.
Qed.

Lemma locked_Blocks s :
  latch_ s = true →
  (∀ page_id, FetchPageImpl page_id s = Blocks) ∧
  (∀ page_id is_dirty, UnpinPageImpl page_id is_dirty s = Blocks) ∧
  NewPageImpl s = Blocks ∧
  (∀ page_id, DeletePageImpl page_id s = Blocks) ∧
  FlushAllPagesImpl s = Blocks.
Proof.
  intros Hl.
  unfold FetchPageImpl, UnpinPageImpl, NewPageImpl, DeletePageImpl,
    FlushAllPagesImpl, lock.
  by rewrite Hl.
Qed.

(** ** Arithmetic of [int] *)

(** ** The invariant holds in every reachable state *)

Lemma page_insert n pg pt fl r d l f P g :
  f < length pg →
  page (mkBPM n (<[f := P]> pg) pt fl r d l) g =
  if decide (f = g) then P else pg !!! g.
Proof.
  intros Hlt. unfold page. simpl. rewrite list_lookup_total_insert.
  destruct (decide (f = g)) as [->|Hne].
  - by rewrite decide_True.
  - rewrite decide_False; [done|]. by intros [? _].
Qed.

Lemma lookup_total_repeat_Page n f : repeat Page_new n !!! f = Page_new.
Proof.
  revert f. induction n as [|n IH]; intros [|f]; simpl; done.
Qed.

Lemma Inv_new pool_size disk : Inv (BufferPoolManager_new pool_size disk).
Proof.
  split; simpl.
  - apply repeat_length.
  - apply repeat_length.
  - intros f Hf. apply elem_of_seq in Hf. lia.
  - apply NoDup_seq.
  - intros f _. unfold page. simpl. by rewrite lookup_total_repeat_Page.
  - intros page_id f Hf. by rewrite lookup_empty in Hf.
  - intros f. unfold page. simpl. by rewrite lookup_total_repeat_Page.
  - done.
Qed.

Section Preservation.
Variable s : BufferPoolManager.
Hypothesis HInv : Inv s.

Let Hpages := Inv_pages s HInv.
Let Hrepl := Inv_replacer s HInv.

Lemma Inv_hit f page_id :
  page_table_ s !! page_id = Some f →
  Inv (mkBPM (pool_size_ s)
         (<[f := set_pin_count (int_wrap (pin_count_ (page s f) + 1))
                               (page s f)]> (pages_ s))
         (page_table_ s) (free_list_ s)
         (ClockReplacer.Pin f (replacer_ s)) (disk_manager_ s) false).
Proof.
  intros Ht. destruct (Inv_table s HInv _ _ Ht) as (Hlt & Hid & Hnf).
  split; simpl.
  - by rewrite length_insert.
  - by rewrite length_insert.
  - apply HInv.
  - apply HInv.
  - intros g Hg. rewrite page_insert by lia. case_decide; [by subst|].
    by apply HInv.
  - intros pid g Hg. rewrite page_insert by lia.
    destruct (Inv_table s HInv _ _ Hg) as (? & ? & ?).
    case_decide; [by subst|done].
  - intros g. rewrite page_insert by lia.
    case_decide; simpl; [apply int_wrap_range|apply HInv].
  - done.
Qed.

Lemma Inv_install_free l1 l2 f P page_id d :
  free_list_ s = l1 ++ f :: l2 →
  page_id_ P = page_id → (INT_MIN ≤ pin_count_ P ≤ INT_MAX)%Z →
  Inv (mkBPM (pool_size_ s) (<[f := P]> (pages_ s))
         (<[page_id := f]> (page_table_ s)) (l1 ++ l2)
         (ClockReplacer.Pin f (replacer_ s)) d false).
Proof.
  intros Hfl Hid Hpin.
  assert (Hf : f ∈ free_list_ s).
  { rewrite Hfl, elem_of_app, elem_of_cons. tauto. }
  assert (Hsub : ∀ g, g ∈ l1 ++ l2 → g ∈ free_list_ s).
  { intros g. rewrite Hfl, !elem_of_app, elem_of_cons. tauto. }
  pose proof (Inv_free_lt s HInv f Hf) as Hlt.
  pose proof (Inv_free_NoDup s HInv) as Hnd.
  rewrite Hfl, <- Permutation_middle in Hnd. apply NoDup_cons in Hnd as [Hnf Hnd].
  split; simpl.
  - by rewrite length_insert.
  - by rewrite length_insert.
  - intros g Hg. apply HInv. auto.
  - done.
  - intros g Hg. rewrite page_insert by lia. case_decide; [by subst|].
    apply HInv. auto.
  - intros pid g Hg. rewrite page_insert by lia.
    apply lookup_insert_Some in Hg as [(<- & <-)|(Hne & Hg)].
    + by rewrite decide_True.
    + destruct (Inv_table s HInv _ _ Hg) as (? & ? & ?).
      rewrite decide_False by (by intros ->).
      split; [done|]. split; [done|]. intros Hin. by apply Hsub in Hin.
  - intros g. rewrite page_insert by lia. case_decide; [done|apply HInv].
  - done.
Qed.

Lemma Inv_install_evict f r P page_id d :
  free_list_ s = [] →
  ClockReplacer.Victim (replacer_ s) = Some (f, r) →
  page_id_ P = page_id → (INT_MIN ≤ pin_count_ P ≤ INT_MAX)%Z →
  Inv (mkBPM (pool_size_ s) (<[f := P]> (pages_ s))
         (<[page_id := f]> (delete (page_id_ (page s f)) (page_table_ s))) []
         (ClockReplacer.Pin f r) d false).
Proof.
  intros Hfl Hv Hid Hpin.
  apply Victim_Some in Hv as (Htr & Hlen & Hrest).
  assert (Hlt : f < pool_size_ s).
  { rewrite <- Hrepl. by apply tracked_in_lt. }
  split; simpl.
  - by rewrite length_insert.
  - rewrite length_insert. congruence.
  - intros g Hg. by apply elem_of_nil in Hg.
  - constructor.
  - intros g Hg. by apply elem_of_nil in Hg.
  - intros pid g Hg. rewrite page_insert by lia.
    apply lookup_insert_Some in Hg as [(<- & <-)|(Hne & Hg)].
    + rewrite decide_True by done. split; [done|]. split; [done|]. apply not_elem_of_nil.
    + apply lookup_delete_Some in Hg as [Hne' Hg].
      destruct (Inv_table s HInv _ _ Hg) as (? & ? & ?).
      rewrite decide_False by (intros ->; congruence).
      split; [done|]. split; [done|]. apply not_elem_of_nil.
  - intros g. rewrite page_insert by lia. case_decide; [done|apply HInv].
  - done.
Qed.

Lemma Inv_unpin f page_id P :
  page_table_ s !! page_id = Some f →
  (0 < pin_count_ (page s f))%Z →
  page_id_ P = page_id_ (page s f) →
  pin_count_ P = (pin_count_ (page s f) - 1)%Z →
  Inv (mkBPM (pool_size_ s) (<[f := P]> (pages_ s))
         (page_table_ s) (free_list_ s)
         (if decide (pin_count_ (page s f) - 1 = 0)%Z
          then ClockReplacer.Unpin f (replacer_ s) else replacer_ s)
         (disk_manager_ s) false).
Proof.
  intros Ht Hpin Hid Hcnt.
  destruct (Inv_table s HInv _ _ Ht) as (Hlt & Hpid & Hnf).
  split; simpl.
  - by rewrite length_insert.
  - case_decide; [by rewrite ClockReplacer_length_Unpin|done].
  - apply HInv.
  - apply HInv.
  - intros g Hg. rewrite page_insert by lia. case_decide; [by subst|].
    by apply HInv.
  - intros pid g Hg. rewrite page_insert by lia.
    destruct (Inv_table s HInv _ _ Hg) as (? & ? & ?).
    case_decide; [subst; split; [done|]; split; [congruence|done]|done].
  - intros g. rewrite page_insert by lia. case_decide; [|apply HInv].
    pose proof (Inv_range s HInv f). int_lia.
  - done.
Qed.

Lemma Inv_delete f page_id P d :
  page_table_ s !! page_id = Some f →
  page_id_ P = page_id_ (page s f) →
  pin_count_ P = 0%Z → is_dirty_ P = false →
  Inv (mkBPM (pool_size_ s) (<[f := P]> (pages_ s))
         (delete page_id (page_table_ s)) (free_list_ s ++ [f])
         (replacer_ s) d false).
Proof.
  intros Ht Hid Hcnt Hd.
  destruct (Inv_table s HInv _ _ Ht) as (Hlt & Hpid & Hnf).
  split; simpl.
  - by rewrite length_insert.
  - done.
  - intros g Hg. apply elem_of_app in Hg as [Hg|Hg]; [by apply HInv|].
    apply list_elem_of_singleton in Hg. by subst.
  - apply NoDup_app. split; [apply HInv|]. split; [|apply NoDup_singleton].
    intros g Hg Hg'. apply list_elem_of_singleton in Hg'. by subst.
  - intros g Hg. rewrite page_insert by lia. case_decide; [by subst|].
    apply elem_of_app in Hg as [Hg|Hg]; [by apply HInv|].
    apply list_elem_of_singleton in Hg. by subst.
  - intros pid g Hg. rewrite page_insert by lia.
    apply lookup_delete_Some in Hg as [Hne Hg].
    destruct (Inv_table s HInv _ _ Hg) as (? & ? & ?).
    assert (f ≠ g) by (intros ->; congruence).
    rewrite decide_False by done. split; [done|]. split; [done|].
    intros Hin. apply elem_of_app in Hin as [Hin|Hin]; [done|].
    apply list_elem_of_singleton in Hin. by subst.
  - intros g. rewrite page_insert by lia. case_decide; [int_lia|apply HInv].
  - done.
Qed.

(** A change of a frame's buffer, or the clearing of its dirty flag, and
    any change of the disk. *)
Lemma Inv_frame f P d :
  page_id_ P = page_id_ (page s f) →
  pin_count_ P = pin_count_ (page s f) →
  (is_dirty_ (page s f) = false → is_dirty_ P = false) →
  Inv (mkBPM (pool_size_ s) (<[f := P]> (pages_ s))
         (page_table_ s) (free_list_ s) (replacer_ s) d (latch_ s)).
Proof.
  intros Hid Hcnt Hd.
  destruct (decide (f < length (pages_ s))) as [Hlt|Hge].
  - split; simpl.
    + by rewrite length_insert.
    + done.
    + apply HInv.
    + apply HInv.
    + intros g Hg. rewrite page_insert by lia.
      destruct (Inv_free_clean s HInv g Hg) as [? ?].
      case_decide; [subst; split; [congruence|auto]|done].
    + intros pid g Hg. rewrite page_insert by lia.
      destruct (Inv_table s HInv _ _ Hg) as (? & ? & ?).
      case_decide; [subst; split; [done|]; split; [congruence|done]|done].
    + intros g. rewrite page_insert by lia.
      case_decide; [rewrite Hcnt|]; apply HInv.
    + apply HInv.
  - rewrite list_insert_ge by lia. destruct HInv. by split.
Qed.
End Preservation.

Lemma Inv_exhausted s :
  Inv s → free_list_ s = [] → ClockReplacer.Victim (replacer_ s) = None →
  Inv (set_latch true s).
Proof.
  intros HInv Hfl Hv. destruct HInv. split; try done.
  intros _. split; [done|]. by apply Victim_None_iff.
Qed.

Lemma Inv_FlushPageImpl s page_id : Inv s → Inv (fst (FlushPageImpl page_id s)).
Proof.
  intros HInv. unfold FlushPageImpl.
  destruct (page_table_ s !! page_id) as [f|]; [|done].
  destruct (is_dirty_ (page s f)); [|done].
  by apply (Inv_frame s HInv f (set_is_dirty false (page s f))).
Qed.

Lemma Inv_flush_frame s i : Inv s → Inv (flush_frame s i).
Proof.
  intros HInv. unfold flush_frame.
  destruct (is_dirty_ (page s i)); [|done]. by apply Inv_FlushPageImpl.
Qed.

Lemma flush_frame_set_latch b s i :
  flush_frame (set_latch b s) i = set_latch b (flush_frame s i).
Proof.
  unfold flush_frame, FlushPageImpl, page. simpl.
  destruct (is_dirty_ (pages_ s !!! i)); [|done].
  destruct (page_table_ s !! page_id_ (pages_ s !!! i)) as [f|]; [|done].
  unfold page. simpl. by destruct (is_dirty_ (pages_ s !!! f)).
Qed.

Lemma latch_flush_frame s i : latch_ (flush_frame s i) = latch_ s.
Proof.
  unfold flush_frame, FlushPageImpl.
  destruct (is_dirty_ (page s i)); [|done].
  destruct (page_table_ s !! page_id_ (page s i)) as [f|]; [|done].
  by destruct (is_dirty_ (page s f)).
Qed.

Lemma FlushAllPagesImpl_free s :
  latch_ s = false →
  FlushAllPagesImpl s = Returns (foldl flush_frame s (seq 0 (pool_size_ s))) tt.
Proof.
  intros Hl. unfold FlushAllPagesImpl, lock. rewrite Hl. simpl. f_equal.
  generalize (seq 0 (pool_size_ s)). intros l. revert s Hl.
  induction l as [|i l IH]; intros s Hl; simpl.
  - by apply unlock_lock.
  - rewrite flush_frame_set_latch. apply IH. by rewrite latch_flush_frame.
Qed.

Lemma Inv_foldl_flush_frame l : ∀ s, Inv s → Inv (foldl flush_frame s l).
Proof.
  induction l as [|i l IH]; intros s HInv; simpl; [done|].
  by apply IH, Inv_flush_frame.
Qed.

Lemma Inv_run_op s o s' : Inv s → run_op o s = Some s' → Inv s'.
Proof.
  intros HInv Hrun.
  pose proof (Inv_pages s HInv) as Hpages.
  destruct o as [page_id|page_id is_dirty|page_id| |page_id| |f buf]; simpl in Hrun.
  - (* FetchPage *)
    destruct (latch_ s) eqn:Hl.
    { by rewrite (proj1 (locked_Blocks s Hl)) in Hrun. }
    destruct (page_table_ s !! page_id) as [f|] eqn:Ht.
    { rewrite (FetchPageImpl_hit s page_id f) in Hrun by done.
      injection Hrun as <-. by apply (Inv_hit s HInv f page_id). }
    destruct (free_list_ s) as [|f rest] eqn:Hfl.
    + destruct (ClockReplacer.Victim (replacer_ s)) as [[f r]|] eqn:Hv.
      * assert (f < length (pages_ s)).
        { apply Victim_Some in Hv as (Htr & _). apply tracked_in_lt in Htr.
          rewrite (Inv_replacer s HInv) in Htr. lia. }
        rewrite (FetchPageImpl_evict s page_id f r) in Hrun by done.
        injection Hrun as <-. apply Inv_install_evict; try done. simpl.
        apply int_wrap_range.
      * rewrite FetchPageImpl_exhausted in Hrun by done.
        injection Hrun as <-. by apply Inv_exhausted.
    + assert (Hf : f ∈ free_list_ s) by (rewrite Hfl; left).
      pose proof (Inv_free_lt s HInv f Hf).
      destruct (Inv_free_clean s HInv f Hf) as [Hz _].
      rewrite (FetchPageImpl_free s page_id f rest) in Hrun by (done || lia).
      injection Hrun as <-.
      apply (Inv_install_free s HInv [] rest); try done. simpl.
      apply int_wrap_range.
  - (* UnpinPage *)
    destruct (latch_ s) eqn:Hl.
    { by rewrite (proj1 (proj2 (locked_Blocks s Hl))) in Hrun. }
    destruct (page_table_ s !! page_id) as [f|] eqn:Ht.
    + destruct (decide (pin_count_ (page s f) ≤ 0)%Z).
      * rewrite (UnpinPageImpl_unpinned s page_id is_dirty f) in Hrun by done.
        by injection Hrun as <-.
      * destruct (Inv_table s HInv _ _ Ht) as (? & ? & ?).
        pose proof (Inv_range s HInv f).
        rewrite (UnpinPageImpl_pinned s page_id is_dirty f) in Hrun by (done || lia).
        injection Hrun as <-. apply (Inv_unpin s HInv f page_id); try done. lia.
    + rewrite UnpinPageImpl_absent in Hrun by done. by injection Hrun as <-.
  - (* FlushPage *)
    injection Hrun as <-. by apply Inv_FlushPageImpl.
  - (* NewPage *)
    destruct (latch_ s) eqn:Hl.
    { by rewrite (proj1 (proj2 (proj2 (locked_Blocks s Hl)))) in Hrun. }
    destruct (last (free_list_ s)) as [f|] eqn:Hlast.
    + pose proof Hlast as Hlast'. apply last_Some in Hlast' as [l' Hfl].
      assert (Hf : f ∈ free_list_ s).
      { rewrite Hfl, elem_of_app, elem_of_cons. tauto. }
      pose proof (Inv_free_lt s HInv f Hf).
      rewrite (NewPageImpl_free s f) in Hrun by (done || lia).
      injection Hrun as <-. rewrite Hfl, removelast_last.
      rewrite <- (app_nil_r l') at 1.
      by apply (Inv_install_free s HInv l' []).
    + apply last_None in Hlast.
      destruct (ClockReplacer.Victim (replacer_ s)) as [[f r]|] eqn:Hv.
      * assert (f < length (pages_ s)).
        { apply Victim_Some in Hv as (Htr & _). apply tracked_in_lt in Htr.
          rewrite (Inv_replacer s HInv) in Htr. lia. }
        rewrite (NewPageImpl_evict s f r) in Hrun by done.
        injection Hrun as <-. by apply Inv_install_evict.
      * rewrite NewPageImpl_exhausted in Hrun by done. by injection Hrun as <-.
  - (* DeletePage *)
    destruct (latch_ s) eqn:Hl.
    { by rewrite (proj1 (proj2 (proj2 (proj2 (locked_Blocks s Hl))))) in Hrun. }
    destruct (page_table_ s !! page_id) as [f|] eqn:Ht.
    + destruct (decide (page_id_ (page s f) = 0%Z)).
      * destruct (Inv_table s HInv _ _ Ht) as (? & ? & ?).
        rewrite (DeletePageImpl_deleted s page_id f) in Hrun by (done || lia).
        injection Hrun as <-. by apply Inv_delete.
      * rewrite (DeletePageImpl_refused s page_id f) in Hrun by done.
        by injection Hrun as <-.
    + rewrite DeletePageImpl_absent in Hrun by done. by injection Hrun as <-.
  - (* FlushAllPages *)
    destruct (latch_ s) eqn:Hl.
    { by rewrite (proj2 (proj2 (proj2 (proj2 (locked_Blocks s Hl))))) in Hrun. }
    rewrite FlushAllPagesImpl_free in Hrun by done.
    injection Hrun as <-. by apply Inv_foldl_flush_frame.
  - (* WriteData *)
    injection Hrun as <-.
    by apply (Inv_frame s HInv f (set_data buf (page s f))).
Qed.

(** Every reachable state satisfies the invariant. *)
Theorem reachable_Inv s : reachable s → Inv s.
Proof.
  induction 1 as [pool_size disk|s o s' _ IH Hrun].
  - apply Inv_new.
  - by eapply Inv_run_op.
Qed.

(** Every pin count of a reachable state is a value of [int]. *)
Theorem reachable_pin_range s g p :
  reachable s → pages_ s !! g = Some p →
  (INT_MIN ≤ pin_count_ p ≤ INT_MAX)%Z.
Proof.
  intros Hs Hg. pose proof (Inv_range s (reachable_Inv s Hs) g) as Hr.
  unfold page in Hr. by rewrite (list_lookup_total_correct _ _ _ Hg) in Hr.
Qed.

(** ** Pin counts and the replacer *)

Lemma Victim_lt s f r :
  Inv s → ClockReplacer.Victim (replacer_ s) = Some (f, r) →
  f < length (pages_ s).
Proof.
  intros HInv Hv. apply Victim_Some in Hv as (Htr & _).
  apply tracked_in_lt in Htr.
  rewrite (Inv_replacer s HInv) in Htr. by rewrite (Inv_pages s HInv).
Qed.

Lemma tracked_unpinned_frame s f P pt fl r d l :
  f < length (pages_ s) → tracked_unpinned s →
  (∀ g, ClockReplacer.tracked r g →
     if decide (f = g) then pin_count_ P = 0%Z
     else ClockReplacer.tracked (replacer_ s) g) →
  tracked_unpinned (mkBPM (pool_size_ s) (<[f := P]> (pages_ s)) pt fl r d l).
Proof.
  intros Hlt Hs Hr g Hg. simpl in Hg. specialize (Hr g Hg).
  rewrite page_insert by done. case_decide; [done|]. by apply Hs.
Qed.

Lemma tracked_unpinned_flush_frame s i :
  Inv s → tracked_unpinned s → tracked_unpinned (flush_frame s i).
Proof.
  intros HInv Hs. unfold flush_frame.
  destruct (is_dirty_ (page s i)); [|done].
  unfold FlushPageImpl.
  destruct (page_table_ s !! page_id_ (page s i)) as [f|] eqn:Ht; [|done].
  destruct (is_dirty_ (page s f)); [|done]. simpl.
  destruct (Inv_table s HInv _ _ Ht) as (Hlt & _).
  rewrite <- (Inv_pages s HInv) in Hlt.
  apply (tracked_unpinned_frame s f); try done.
  intros g Hg. case_decide; [subst; by apply Hs|done].
Qed.

Lemma tracked_unpinned_run_op s o s' :
  Inv s → tracked_unpinned s → run_op o s = Some s' → tracked_unpinned s'.
Proof.
  intros HInv Hs Hrun.
  pose proof (Inv_pages s HInv) as Hpages.
  destruct o as [page_id|page_id is_dirty|page_id| |page_id| |f buf]; simpl in Hrun.
  - destruct (latch_ s) eqn:Hl.
    { by rewrite (proj1 (locked_Blocks s Hl)) in Hrun. }
    destruct (page_table_ s !! page_id) as [f|] eqn:Ht.
    { destruct (Inv_table s HInv _ _ Ht) as (Hlt & _).
      rewrite (FetchPageImpl_hit s page_id f) in Hrun by done.
      injection Hrun as <-. apply (tracked_unpinned_frame s f); [lia|done|].
      intros g Hg. apply tracked_Pin in Hg as [Hg Hne].
      by rewrite decide_False. }
    destruct (free_list_ s) as [|f rest] eqn:Hfl.
    + destruct (ClockReplacer.Victim (replacer_ s)) as [[f r]|] eqn:Hv.
      * pose proof (Victim_lt s f r HInv Hv) as Hlt.
        rewrite (FetchPageImpl_evict s page_id f r) in Hrun by done.
        injection Hrun as <-. apply (tracked_unpinned_frame s f); [lia|done|].
        intros g Hg. apply tracked_Pin in Hg as [Hg Hne].
        rewrite decide_False by done.
        apply Victim_Some in Hv as (_ & _ & Hrest). by apply Hrest.
      * rewrite FetchPageImpl_exhausted in Hrun by done.
        by injection Hrun as <-.
    + assert (Hf : f ∈ free_list_ s) by (rewrite Hfl; left).
      pose proof (Inv_free_lt s HInv f Hf).
      rewrite (FetchPageImpl_free s page_id f rest) in Hrun by (done || lia).
      injection Hrun as <-. apply (tracked_unpinned_frame s f); [lia|done|].
      intros g Hg. apply tracked_Pin in Hg as [Hg Hne].
      by rewrite decide_False.
  - destruct (latch_ s) eqn:Hl.
    { by rewrite (proj1 (proj2 (locked_Blocks s Hl))) in Hrun. }
    destruct (page_table_ s !! page_id) as [f|] eqn:Ht.
    + destruct (decide (pin_count_ (page s f) ≤ 0)%Z).
      * rewrite (UnpinPageImpl_unpinned s page_id is_dirty f) in Hrun by done.
        by injection Hrun as <-.
      * destruct (Inv_table s HInv _ _ Ht) as (? & ? & ?).
        pose proof (Inv_range s HInv f).
        rewrite (UnpinPageImpl_pinned s page_id is_dirty f) in Hrun by (done || lia).
        injection Hrun as <-. apply (tracked_unpinned_frame s f); [lia|done|].
        intros g Hg. destruct (decide (f = g)) as [<-|Hne]; simpl.
        -- case_decide as Hz; [done|]. apply Hs in Hg. lia.
        -- case_decide; [|done]. apply tracked_Unpin in Hg as [Hg|[-> _]]; done.
    + rewrite UnpinPageImpl_absent in Hrun by done. by injection Hrun as <-.
  - injection Hrun as <-. unfold FlushPageImpl.
    destruct (page_table_ s !! page_id) as [f|] eqn:Ht; [|done].
    destruct (is_dirty_ (page s f)); [|done]. simpl.
    destruct (Inv_table s HInv _ _ Ht) as (Hlt & _).
    apply (tracked_unpinned_frame s f); [lia|done|].
    intros g Hg. case_decide; [subst; by apply Hs|done].
  - destruct (latch_ s) eqn:Hl.
    { by rewrite (proj1 (proj2 (proj2 (locked_Blocks s Hl)))) in Hrun. }
    destruct (last (free_list_ s)) as [f|] eqn:Hlast.
    + assert (Hf : f ∈ free_list_ s) by (by apply last_Some_elem_of).
      pose proof (Inv_free_lt s HInv f Hf).
      rewrite (NewPageImpl_free s f) in Hrun by (done || lia).
      injection Hrun as <-. apply (tracked_unpinned_frame s f); [lia|done|].
      intros g Hg. apply tracked_Pin in Hg as [Hg Hne].
      by rewrite decide_False.
    + apply last_None in Hlast.
      destruct (ClockReplacer.Victim (replacer_ s)) as [[f r]|] eqn:Hv.
      * pose proof (Victim_lt s f r HInv Hv) as Hlt.
        rewrite (NewPageImpl_evict s f r) in Hrun by done.
        injection Hrun as <-. apply (tracked_unpinned_frame s f); [lia|done|].
        intros g Hg. apply tracked_Pin in Hg as [Hg Hne].
        rewrite decide_False by done.
        apply Victim_Some in Hv as (_ & _ & Hrest). by apply Hrest.
      * rewrite NewPageImpl_exhausted in Hrun by done. by injection Hrun as <-.
  - destruct (latch_ s) eqn:Hl.
    { by rewrite (proj1 (proj2 (proj2 (proj2 (locked_Blocks s Hl))))) in Hrun. }
    destruct (page_table_ s !! page_id) as [f|] eqn:Ht.
    + destruct (decide (page_id_ (page s f) = 0%Z)).
      * destruct (Inv_table s HInv _ _ Ht) as (? & ? & ?).
        rewrite (DeletePageImpl_deleted s page_id f) in Hrun by (done || lia).
        injection Hrun as <-. apply (tracked_unpinned_frame s f); [lia|done|].
        intros g Hg. by case_decide.
      * rewrite (DeletePageImpl_refused s page_id f) in Hrun by done.
        by injection Hrun as <-.
    + rewrite DeletePageImpl_absent in Hrun by done. by injection Hrun as <-.
  - destruct (latch_ s) eqn:Hl.
    { by rewrite (proj2 (proj2 (proj2 (proj2 (locked_Blocks s Hl))))) in Hrun. }
    rewrite FlushAllPagesImpl_free in Hrun by done.
    injection Hrun as <-.
    generalize (seq 0 (pool_size_ s)). intros l. clear Hl Hpages.
    revert s HInv Hs. induction l as [|i l IH]; intros s HInv Hs; simpl; [done|].
    apply IH; [by apply Inv_flush_frame|by apply tracked_unpinned_flush_frame].
  - injection Hrun as <-.
    destruct (decide (f < length (pages_ s))) as [Hlt|Hge].
    + apply (tracked_unpinned_frame s f); [lia|done|].
      intros g Hg. case_decide; [subst; by apply Hs|done].
    + unfold upd_page. rewrite list_insert_ge by lia. by destruct s.
Qed.

Lemma reachable_tracked_unpinned s : reachable s → tracked_unpinned s.
Proof.
  induction 1 as [pool_size disk|s o s' Hs IH Hrun].
  - intros f Hf. by apply tracked_new in Hf.
  - eapply tracked_unpinned_run_op; [by apply reachable_Inv|done..].
Qed.

(** *** Runs without overflow *)

Lemma reachable_without_overflow_reachable s :
  reachable_without_overflow s → reachable s.
Proof.
  induction 1 as [pool_size disk|s o s' _ IH _ Hrun].
  - apply reachable_new.
  - by eapply reachable_step.
Qed.

Lemma pin_counts_frame s f P pt fl r d l :
  f < length (pages_ s) → pin_counts_sound s → (0 ≤ pin_count_ P)%Z →
  (∀ page_id g, pt !! page_id = Some g →
     if decide (f = g)
     then pin_count_ P = 0%Z → ClockReplacer.tracked r f
     else (∃ q, page_table_ s !! q = Some g) ∧
          (ClockReplacer.tracked (replacer_ s) g → ClockReplacer.tracked r g)) →
  pin_counts_sound (mkBPM (pool_size_ s) (<[f := P]> (pages_ s)) pt fl r d l).
Proof.
  intros Hlt [Hge Htr] HP Hpt. split.
  - intros g. rewrite page_insert by done. case_decide; [done|apply Hge].
  - intros page_id g Hg. cbn [page_table_ replacer_] in *.
    rewrite page_insert by done. specialize (Hpt page_id g Hg).
    destruct (decide (f = g)) as [<-|Hne]; [done|].
    destruct Hpt as [[q Hq] Himp]. intros Hz. apply Himp. by apply (Htr q).
Qed.

Lemma pin_counts_flush_frame s i :
  Inv s → pin_counts_sound s → pin_counts_sound (flush_frame s i).
Proof.
  intros HInv Hs. unfold flush_frame.
  destruct (is_dirty_ (page s i)); [|done].
  destruct (page_table_ s !! page_id_ (page s i)) as [f|] eqn:Ht.
  2:{ by rewrite FlushPageImpl_absent. }
  destruct (is_dirty_ (page s f)) eqn:Hd.
  2:{ by rewrite (FlushPageImpl_clean s _ f). }
  rewrite (FlushPageImpl_dirty s _ f) by done. cbn [fst].
  destruct (Inv_table s HInv _ _ Ht) as (Hlt & _).
  rewrite <- (Inv_pages s HInv) in Hlt.
  apply (pin_counts_frame s f); [done|done|apply Hs|].
  intros q g Hg. case_decide; [subst g|by eauto].
  intros Hz. by apply (proj2 Hs q).
Qed.

Lemma pin_counts_run_op s o s' :
  Inv s → tracked_unpinned s → pin_counts_sound s → no_overflow o s →
  run_op o s = Some s' → pin_counts_sound s'.
Proof.
  intros HInv Htu Hs Hno Hrun.
  pose proof (Inv_pages s HInv) as Hpages.
  destruct o as [page_id|page_id is_dirty|page_id| |page_id| |f buf]; simpl in Hrun.
  - destruct (latch_ s) eqn:Hl.
    { by rewrite (proj1 (locked_Blocks s Hl)) in Hrun. }
    destruct (page_table_ s !! page_id) as [f|] eqn:Ht.
    { destruct (Inv_table s HInv _ _ Ht) as (Hlt & _).
      pose proof (Hno page_id f eq_refl Ht) as Hmax.
      pose proof (proj1 Hs f) as Hge.
      rewrite (FetchPageImpl_hit s page_id f) in Hrun by done.
      injection Hrun as <-.
      apply (pin_counts_frame s f); [lia|done|..]; simpl;
        rewrite int_wrap_id by int_lia; [lia|].
      intros q g Hg. case_decide; [lia|]. split; [by eauto|].
      intros Hgt. by apply tracked_Pin. }
    destruct (free_list_ s) as [|f rest] eqn:Hfl.
    + destruct (ClockReplacer.Victim (replacer_ s)) as [[f r]|] eqn:Hv.
      * pose proof (Victim_lt s f r HInv Hv) as Hlt.
        rewrite (FetchPageImpl_evict s page_id f r) in Hrun by done.
        apply Victim_Some in Hv as (Hf & _ & Hrest).
        pose proof (Htu f Hf) as Hz.
        injection Hrun as <-.
        apply (pin_counts_frame s f); [done|done|..]; simpl;
          rewrite Hz; [done|].
        intros q g Hg. case_decide; [done|].
        apply lookup_insert_Some in Hg as [(_ & ?)|(_ & Hg)]; [done|].
        apply lookup_delete_Some in Hg as [_ Hg]. split; [by eauto|].
        intros Hgt. apply tracked_Pin. split; [|done]. by apply Hrest.
      * rewrite FetchPageImpl_exhausted in Hrun by done.
        injection Hrun as <-. by destruct Hs.
    + assert (Hf : f ∈ free_list_ s) by (rewrite Hfl; left).
      pose proof (Inv_free_lt s HInv f Hf).
      destruct (Inv_free_clean s HInv f Hf) as [Hz _].
      rewrite (FetchPageImpl_free s page_id f rest) in Hrun by (done || lia).
      injection Hrun as <-.
      apply (pin_counts_frame s f); [lia|done|..]; simpl; rewrite Hz; [done|].
      intros q g Hg. case_decide; [done|].
      apply lookup_insert_Some in Hg as [(_ & ?)|(_ & Hg)]; [done|].
      split; [by eauto|]. intros Hgt. by apply tracked_Pin.
  - destruct (latch_ s) eqn:Hl.
    { by rewrite (proj1 (proj2 (locked_Blocks s Hl))) in Hrun. }
    destruct (page_table_ s !! page_id) as [f|] eqn:Ht.
    + destruct (decide (pin_count_ (page s f) ≤ 0)%Z).
      * rewrite (UnpinPageImpl_unpinned s page_id is_dirty f) in Hrun by done.
        by injection Hrun as <-.
      * destruct (Inv_table s HInv _ _ Ht) as (? & ? & ?).
        pose proof (Inv_range s HInv f).
        rewrite (UnpinPageImpl_pinned s page_id is_dirty f) in Hrun by (done || lia).
        injection Hrun as <-.
        apply (pin_counts_frame s f); [lia|done|simpl; lia|]. simpl.
        intros q g Hg. destruct (decide (f = g)) as [<-|Hne].
        -- intros Hz. rewrite decide_True by done. apply tracked_Unpin.
           right. split; [done|]. by rewrite (Inv_replacer s HInv).
        -- split; [by eauto|]. intros Hgt.
           case_decide; [|done]. apply tracked_Unpin. by left.
    + rewrite UnpinPageImpl_absent in Hrun by done. by injection Hrun as <-.
  - injection Hrun as <-.
    destruct (page_table_ s !! page_id) as [f|] eqn:Ht.
    2:{ by rewrite FlushPageImpl_absent. }
    destruct (is_dirty_ (page s f)) eqn:Hd.
    2:{ by rewrite (FlushPageImpl_clean s _ f). }
    rewrite (FlushPageImpl_dirty s _ f) by done. cbn [fst].
    destruct (Inv_table s HInv _ _ Ht) as (Hlt & _).
    apply (pin_counts_frame s f); [lia|done|apply Hs|].
    intros q g Hg. case_decide; [subst g|by eauto].
    intros Hz. by apply (proj2 Hs q).
  - destruct (latch_ s) eqn:Hl.
    { by rewrite (proj1 (proj2 (proj2 (locked_Blocks s Hl)))) in Hrun. }
    destruct (last (free_list_ s)) as [f|] eqn:Hlast.
    + assert (Hf : f ∈ free_list_ s) by (by apply last_Some_elem_of).
      pose proof (Inv_free_lt s HInv f Hf).
      rewrite (NewPageImpl_free s f) in Hrun by (done || lia).
      injection Hrun as <-.
      apply (pin_counts_frame s f); [lia|done|done|]. simpl.
      intros q g Hg. case_decide; [done|].
      apply lookup_insert_Some in Hg as [(_ & ?)|(_ & Hg)]; [done|].
      split; [by eauto|]. intros Hgt. by apply tracked_Pin.
    + apply last_None in Hlast.
      destruct (ClockReplacer.Victim (replacer_ s)) as [[f r]|] eqn:Hv.
      * pose proof (Victim_lt s f r HInv Hv) as Hlt.
        rewrite (NewPageImpl_evict s f r) in Hrun by done.
        apply Victim_Some in Hv as (Hf & _ & Hrest).
        injection Hrun as <-.
        apply (pin_counts_frame s f); [done|done|done|]. simpl.
        intros q g Hg. case_decide; [done|].
        apply lookup_insert_Some in Hg as [(_ & ?)|(_ & Hg)]; [done|].
        apply lookup_delete_Some in Hg as [_ Hg]. split; [by eauto|].
        intros Hgt. apply tracked_Pin. split; [|done]. by apply Hrest.
      * rewrite NewPageImpl_exhausted in Hrun by done. by injection Hrun as <-.
  - destruct (latch_ s) eqn:Hl.
    { by rewrite (proj1 (proj2 (proj2 (proj2 (locked_Blocks s Hl))))) in Hrun. }
    destruct (page_table_ s !! page_id) as [f|] eqn:Ht.
    + destruct (decide (page_id_ (page s f) = 0%Z)).
      * destruct (Inv_table s HInv _ _ Ht) as (? & Hid & ?).
        rewrite (DeletePageImpl_deleted s page_id f) in Hrun by (done || lia).
        injection Hrun as <-.
        apply (pin_counts_frame s f); [lia|done|done|]. simpl.
        intros q g Hg. apply lookup_delete_Some in Hg as [Hne Hg].
        destruct (Inv_table s HInv _ _ Hg) as (_ & Hidg & _).
        rewrite decide_False by (intros ->; congruence). by eauto.
      * rewrite (DeletePageImpl_refused s page_id f) in Hrun by done.
        by injection Hrun as <-.
    + rewrite DeletePageImpl_absent in Hrun by done. by injection Hrun as <-.
  - destruct (latch_ s) eqn:Hl.
    { by rewrite (proj2 (proj2 (proj2 (proj2 (locked_Blocks s Hl))))) in Hrun. }
    rewrite FlushAllPagesImpl_free in Hrun by done.
    injection Hrun as <-.
    generalize (seq 0 (pool_size_ s)). intros l. clear Hl Hpages Hno Htu.
    revert s HInv Hs. induction l as [|i l IH]; intros s HInv Hs; simpl; [done|].
    apply IH; [by apply Inv_flush_frame|by apply pin_counts_flush_frame].
  - injection Hrun as <-.
    destruct (decide (f < length (pages_ s))) as [Hlt|Hge].
    + apply (pin_counts_frame s f); [lia|done|apply Hs|].
      intros q g Hg. case_decide; [subst g|by eauto].
      intros Hz. by apply (proj2 Hs q).
    + unfold upd_page. rewrite list_insert_ge by lia. by destruct s.
Qed.

(** As long as no pin count overflows, no pin count is negative and every
    resident frame with pin count 0 is tracked by the replacer. *)
Theorem reachable_without_overflow_pin_counts s :
  reachable_without_overflow s → pin_counts_sound s.
Proof.
  induction 1 as [pool_size disk|s o s' Hs IH Hno Hrun].
  - split.
    + intros f. unfold page. simpl. by rewrite lookup_total_repeat_Page.
    + intros page_id f Hf. simpl in Hf. by rewrite lookup_empty in Hf.
  - apply reachable_without_overflow_reachable in Hs.
    eapply pin_counts_run_op;
      [by apply reachable_Inv|by apply reachable_tracked_unpinned|done..].
Qed.

(** *** Short runs do not overflow *)

Lemma pin_bound_frame s f P pt fl r d l m :
  f < length (pages_ s) → (∀ g, (pin_count_ (page s g) ≤ m)%Z) →
  (pin_count_ P ≤ m)%Z →
  ∀ g, (pin_count_
          (page (mkBPM (pool_size_ s) (<[f := P]> (pages_ s)) pt fl r d l) g)
        ≤ m)%Z.
Proof.
  intros Hlt Hs HP g. rewrite page_insert by done.
  case_decide; [done|apply Hs].
Qed.

Lemma pin_bound_flush_frame s i m :
  Inv s → (∀ g, (pin_count_ (page s g) ≤ m)%Z) →
  ∀ g, (pin_count_ (page (flush_frame s i) g) ≤ m)%Z.
Proof.
  intros HInv Hs. unfold flush_frame.
  destruct (is_dirty_ (page s i)); [|done].
  destruct (page_table_ s !! page_id_ (page s i)) as [f|] eqn:Ht.
  2:{ by rewrite FlushPageImpl_absent. }
  destruct (is_dirty_ (page s f)) eqn:Hd.
  2:{ by rewrite (FlushPageImpl_clean s _ f). }
  rewrite (FlushPageImpl_dirty s _ f) by done. cbn [fst].
  destruct (Inv_table s HInv _ _ Ht) as (Hlt & _).
  rewrite <- (Inv_pages s HInv) in Hlt.
  apply (pin_bound_frame s f); [done|done|apply Hs].
Qed.

(** An operation raises no pin count by more than 1. *)
Lemma pin_bound_run_op s o s' n :
  Inv s → tracked_unpinned s → (0 ≤ n < INT_MAX)%Z →
  (∀ g, (pin_count_ (page s g) ≤ n)%Z) → run_op o s = Some s' →
  ∀ g, (pin_count_ (page s' g) ≤ n + 1)%Z.
Proof.
  intros HInv Htu Hn Hs Hrun.
  pose proof (Inv_pages s HInv) as Hpages.
  assert (Hs1 : ∀ g, (pin_count_ (page s g) ≤ n + 1)%Z).
  { intros g. specialize (Hs g). lia. }
  destruct o as [page_id|page_id is_dirty|page_id| |page_id| |f buf]; simpl in Hrun.
  - destruct (latch_ s) eqn:Hl.
    { by rewrite (proj1 (locked_Blocks s Hl)) in Hrun. }
    destruct (page_table_ s !! page_id) as [f|] eqn:Ht.
    { destruct (Inv_table s HInv _ _ Ht) as (Hlt & _).
      pose proof (Inv_range s HInv f) as Hr. pose proof (Hs f) as Hf.
      rewrite (FetchPageImpl_hit s page_id f) in Hrun by done.
      injection Hrun as <-.
      apply (pin_bound_frame s f); [lia|done|]. simpl.
      rewrite int_wrap_id by int_lia. lia. }
    destruct (free_list_ s) as [|f rest] eqn:Hfl.
    + destruct (ClockReplacer.Victim (replacer_ s)) as [[f r]|] eqn:Hv.
      * pose proof (Victim_lt s f r HInv Hv) as Hlt.
        rewrite (FetchPageImpl_evict s page_id f r) in Hrun by done.
        apply Victim_Some in Hv as (Hf & _).
        pose proof (Htu f Hf) as Hz.
        injection Hrun as <-.
        apply (pin_bound_frame s f); [done|done|]. simpl. rewrite Hz.
        change (int_wrap (0 + 1)) with 1%Z. lia.
      * rewrite FetchPageImpl_exhausted in Hrun by done.
        injection Hrun as <-. apply Hs1.
    + assert (Hf : f ∈ free_list_ s) by (rewrite Hfl; left).
      pose proof (Inv_free_lt s HInv f Hf).
      destruct (Inv_free_clean s HInv f Hf) as [Hz _].
      rewrite (FetchPageImpl_free s page_id f rest) in Hrun by (done || lia).
      injection Hrun as <-.
      apply (pin_bound_frame s f); [lia|done|]. simpl. rewrite Hz.
      change (int_wrap (0 + 1)) with 1%Z. lia.
  - destruct (latch_ s) eqn:Hl.
    { by rewrite (proj1 (proj2 (locked_Blocks s Hl))) in Hrun. }
    destruct (page_table_ s !! page_id) as [f|] eqn:Ht.
    + destruct (decide (pin_count_ (page s f) ≤ 0)%Z).
      * rewrite (UnpinPageImpl_unpinned s page_id is_dirty f) in Hrun by done.
        by injection Hrun as <-.
      * destruct (Inv_table s HInv _ _ Ht) as (? & ? & ?).
        pose proof (Inv_range s HInv f).
        rewrite (UnpinPageImpl_pinned s page_id is_dirty f) in Hrun by (done || lia).
        injection Hrun as <-. pose proof (Hs f).
        apply (pin_bound_frame s f); [lia|done|]. simpl. lia.
    + rewrite UnpinPageImpl_absent in Hrun by done. by injection Hrun as <-.
  - injection Hrun as <-.
    destruct (page_table_ s !! page_id) as [f|] eqn:Ht.
    2:{ by rewrite FlushPageImpl_absent. }
    destruct (is_dirty_ (page s f)) eqn:Hd.
    2:{ by rewrite (FlushPageImpl_clean s _ f). }
    rewrite (FlushPageImpl_dirty s _ f) by done. cbn [fst].
    destruct (Inv_table s HInv _ _ Ht) as (Hlt & _).
    apply (pin_bound_frame s f); [lia|done|apply Hs1].
  - destruct (latch_ s) eqn:Hl.
    { by rewrite (proj1 (proj2 (proj2 (locked_Blocks s Hl)))) in Hrun. }
    destruct (last (free_list_ s)) as [f|] eqn:Hlast.
    + assert (Hf : f ∈ free_list_ s) by (by apply last_Some_elem_of).
      pose proof (Inv_free_lt s HInv f Hf).
      rewrite (NewPageImpl_free s f) in Hrun by (done || lia).
      injection Hrun as <-.
      apply (pin_bound_frame s f); [lia|done|]. simpl. lia.
    + apply last_None in Hlast.
      destruct (ClockReplacer.Victim (replacer_ s)) as [[f r]|] eqn:Hv.
      * pose proof (Victim_lt s f r HInv Hv) as Hlt.
        rewrite (NewPageImpl_evict s f r) in Hrun by done.
        injection Hrun as <-.
        apply (pin_bound_frame s f); [done|done|]. simpl. lia.
      * rewrite NewPageImpl_exhausted in Hrun by done. by injection Hrun as <-.
  - destruct (latch_ s) eqn:Hl.
    { by rewrite (proj1 (proj2 (proj2 (proj2 (locked_Blocks s Hl))))) in Hrun. }
    destruct (page_table_ s !! page_id) as [f|] eqn:Ht.
    + destruct (decide (page_id_ (page s f) = 0%Z)).
      * destruct (Inv_table s HInv _ _ Ht) as (? & Hid & ?).
        rewrite (DeletePageImpl_deleted s page_id f) in Hrun by (done || lia).
        injection Hrun as <-.
        apply (pin_bound_frame s f); [lia|done|]. simpl. lia.
      * rewrite (DeletePageImpl_refused s page_id f) in Hrun by done.
        by injection Hrun as <-.
    + rewrite DeletePageImpl_absent in Hrun by done. by injection Hrun as <-.
  - destruct (latch_ s) eqn:Hl.
    { by rewrite (proj2 (proj2 (proj2 (proj2 (locked_Blocks s Hl))))) in Hrun. }
    rewrite FlushAllPagesImpl_free in Hrun by done.
    injection Hrun as <-.
    generalize (seq 0 (pool_size_ s)). intros l. clear Hl Hpages Htu Hs.
    revert s HInv Hs1. induction l as [|i l IH]; intros s HInv Hs; simpl; [done|].
    apply IH; [by apply Inv_flush_frame|by apply pin_bound_flush_frame].
  - injection Hrun as <-.
    destruct (decide (f < length (pages_ s))) as [Hlt|Hge].
    + apply (pin_bound_frame s f); [lia|done|apply Hs1].
    + unfold upd_page. rewrite list_insert_ge by lia. by destruct s.
Qed.

Lemma bounded_run_without_overflow ops : ∀ s s' n,
  reachable_without_overflow s → (0 ≤ n)%Z →
  (∀ g, (pin_count_ (page s g) ≤ n)%Z) →
  (n + Z.of_nat (length ops) ≤ INT_MAX)%Z → run ops s = Some s' →
  reachable_without_overflow s'.
Proof.
  induction ops as [|o ops IH]; intros s s' n Hs Hn Hb Hlen Hrun;
    simpl in Hrun.
  - by injection Hrun as <-.
  - destruct (run_op o s) as [s1|] eqn:Ho; [|done].
    simpl length in Hlen.
    pose proof (reachable_without_overflow_reachable s Hs) as Hr.
    apply (IH s1 s' (n + 1)%Z); [|lia| |lia|done].
    + apply (reachable_without_overflow_step s o s1); [done| |done].
      intros page_id f _ _. specialize (Hb f). lia.
    + apply (pin_bound_run_op s o s1 n);
        [by apply reachable_Inv|by apply reachable_tracked_unpinned|lia|done..].
Qed.

(** A pin count can only overflow after more than [INT_MAX] operations: every
    run of at most [INT_MAX] operations from a new pool is one without
    overflow. *)
Theorem short_run_without_overflow ops pool_size disk s :
  run ops (BufferPoolManager_new pool_size disk) = Some s →
  (Z.of_nat (length ops) ≤ INT_MAX)%Z → reachable_without_overflow s.
Proof.
  intros Hrun Hlen.
  apply (bounded_run_without_overflow ops (BufferPoolManager_new pool_size disk)
           s 0); [apply reachable_without_overflow_new|done| |lia|done].
  intros g. unfold page. simpl. by rewrite lookup_total_repeat_Page.
Qed.

(** ** Runs *)

Lemma run_reachable ops : ∀ s s',
  reachable s → run ops s = Some s' → reachable s'.
Proof.
  induction ops as [|o ops IH]; intros s s' Hs Hrun; simpl in Hrun.
  - by injection Hrun as <-.
  - destruct (run_op o s) as [s1|] eqn:Ho; [|done].
    apply (IH s1); [|done]. by eapply reachable_step.
Qed.

(** ** C1: the write-back of the eviction path of FetchPage *)

(** C1: the code breaks the property.  On the eviction path of
    [FetchPageImpl], a dirty victim's buffer is handed to [WritePage] under
    the page id being fetched, not under the victim's own page id: the call
    recorded by the disk is [WritePageCall page_id], the buffer is stored
    under [page_id], and what the disk holds under the victim's own id is
    left as it was. *)
Theorem FetchPage_evict_writes_under_fetched_id s page_id f r :
  latch_ s = false → page_table_ s !! page_id = None →
  free_list_ s = [] → ClockReplacer.Victim (replacer_ s) = Some (f, r) →
  f < length (pages_ s) → is_dirty_ (page s f) = true →
  page_id_ (page s f) ≠ page_id →
  ∃ s', FetchPageImpl page_id s = Returns s' (Some f) ∧
    DiskManager.calls (disk_manager_ s') =
      DiskManager.ReadPageCall page_id
      :: DiskManager.WritePageCall page_id (data_ (page s f))
      :: DiskManager.calls (disk_manager_ s) ∧
    DiskManager.contents (disk_manager_ s') !! page_id = Some (data_ (page s f)) ∧
    DiskManager.contents (disk_manager_ s') !! page_id_ (page s f) =
      DiskManager.contents (disk_manager_ s) !! page_id_ (page s f).
Proof.
  intros Hl Ht Hfl Hv Hlt Hd Hne.
  eexists. split; [by apply FetchPageImpl_evict|].
  unfold fetch_write_back. rewrite Hd. simpl.
  split; [done|]. split; [by rewrite lookup_insert_eq|].
  by rewrite lookup_insert_ne.
Qed.

Lemma run_dirty_page0 :
  run [FetchPage 0; WriteData 0 marker; UnpinPage 0 true]
      (BufferPoolManager_new 1 disk01) = Some dirty_page0.
Proof. vm_compute. reflexivity. Qed.

Lemma FetchPage_evict_writes_under_fetched_id_witness :
  ∃ s', FetchPageImpl 1 dirty_page0 = Returns s' (Some 0) ∧
    DiskManager.calls (disk_manager_ s') =
      [DiskManager.ReadPageCall 1; DiskManager.WritePageCall 1 marker;
       DiskManager.ReadPageCall 0] ∧
    DiskManager.contents (disk_manager_ s') !! 1%Z = Some marker ∧
    DiskManager.contents (disk_manager_ s') !! 0%Z = Some zero_buffer.
Proof.
  apply (FetchPage_evict_writes_under_fetched_id dirty_page0 1 0
           (ClockReplacer.mk [None] 0)).
  - reflexivity.
  - reflexivity.
  - reflexivity.
  - vm_compute. reflexivity.
  - simpl. lia.
  - reflexivity.
  - discriminate.
Defined.

(** ** C2: the eligibility test of DeletePage *)

Lemma run_pinned_page0 :
  run [FetchPage 0] (BufferPoolManager_new 1 disk01) = Some pinned_page0.
Proof. vm_compute. reflexivity. Qed.

Lemma run_unpinned_page1 :
  run [FetchPage 1; UnpinPage 1 false] (BufferPoolManager_new 1 disk01)
  = Some unpinned_page1.
Proof. vm_compute. reflexivity. Qed.

(** C2: the code breaks the property.  [DeletePageImpl] tests the page id
    of the frame against 0, not the pin count.  Page 0, resident and pinned
    once, is deleted: the deallocator is called, the entry leaves the page
    table, the pin count is reset and the frame joins the free list, and the
    call succeeds.  Page 1, resident and held by nobody, is refused: the call
    fails and the state is unchanged. *)
Theorem DeletePage_tests_page_id_not_pin_count :
  (page_table_ pinned_page0 !! 0%Z = Some 0 ∧
   pin_count_ (page pinned_page0 0) = 1%Z ∧
   DeletePageImpl 0 pinned_page0 =
     Returns (mkBPM 1 [mkPage zero_buffer 0 0 false] ∅ [0]
                (ClockReplacer.mk [None] 0)
                (DiskManager.mk (DiskManager.contents disk01) 2
                   [DiskManager.DeallocatePageCall 0;
                    DiskManager.ReadPageCall 0])
                false)
             true) ∧
  (page_table_ unpinned_page1 !! 1%Z = Some 0 ∧
   pin_count_ (page unpinned_page1 0) = 0%Z ∧
   DeletePageImpl 1 unpinned_page1 = Returns unpinned_page1 false).
Proof. repeat split; vm_compute; reflexivity. Qed.

(** The branch is the same for every pin count: with the latch free, a
    resident page is deleted exactly when its id is 0. *)
Lemma DeletePage_result s page_id f :
  latch_ s = false → page_table_ s !! page_id = Some f →
  ∃ s', DeletePageImpl page_id s =
        Returns s' (bool_decide (page_id_ (page s f) = 0%Z)).
Proof.
  intros Hl Ht. unfold DeletePageImpl, lock. rewrite Hl. simpl. rewrite Ht.
  change (page (set_latch true s) f) with (page s f).
  case_decide.
  - rewrite bool_decide_eq_true_2 by done. eauto.
  - rewrite bool_decide_eq_false_2 by done. eauto.
Qed.

(** ** C3: UnpinPage of a page that is not resident *)

(** C3, as stated, fails: on a fresh pool no page is resident, and
    UnpinPage(7, false) does not return false. *)
Lemma UnpinPage_absent_not_false :
  page_table_ (BufferPoolManager_new 1 disk01) !! 7%Z = None ∧
  ¬ ∃ s', UnpinPageImpl 7 false (BufferPoolManager_new 1 disk01)
          = Returns s' false.
Proof. split; [reflexivity|]. intros [s' Hs']. vm_compute in Hs'. discriminate. Qed.

(** C3 (amended).  For every page id that is not resident, and either value
    of [is_dirty], UnpinPage, entered with the latch free, returns true and
    changes no state. *)
Theorem UnpinPage_absent_returns_true s page_id is_dirty :
  latch_ s = false → page_table_ s !! page_id = None →
  UnpinPageImpl page_id is_dirty s = Returns s true.
Proof. apply UnpinPageImpl_absent. Qed.

Lemma UnpinPage_absent_returns_true_witness :
  UnpinPageImpl 7 true pinned_page0 = Returns pinned_page0 true.
Proof.
  apply (UnpinPage_absent_returns_true pinned_page0 7 true); reflexivity.
Defined.

(** ** C4: a modified page across an eviction *)

Lemma zero_buffer_not_marker : zero_buffer ≠ marker.
Proof. intros H. vm_compute in H. discriminate. Qed.

(** C4: the code breaks the property.  Page 0 is fetched, [marker] is
    written into its buffer and it is unpinned as dirty ([dirty_page0]);
    FetchPage(1) then evicts it from the only frame and page 1 is unpinned.
    FetchPage(0) returns the frame with a zero buffer: the marker is gone.
    The write-back of the eviction stored the buffer under page id 1, so the
    disk still holds the old content of page 0 (the defect of C1). *)
Theorem marker_lost_by_fetch_eviction :
  ∃ s s',
    run [FetchPage 0; WriteData 0 marker; UnpinPage 0 true;
         FetchPage 1; UnpinPage 1 false]
        (BufferPoolManager_new 1 disk01) = Some s ∧
    FetchPageImpl 0 s = Returns s' (Some 0) ∧
    page_id_ (page s' 0) = 0%Z ∧
    data_ (page s' 0) = zero_buffer ∧
    data_ (page s' 0) ≠ marker ∧
    DiskManager.contents (disk_manager_ s') !! 0%Z = Some zero_buffer ∧
    DiskManager.contents (disk_manager_ s') !! 1%Z = Some marker.
Proof.
  eexists. eexists.
  split; [vm_compute; reflexivity|].
  split; [vm_compute; reflexivity|].
  split; [reflexivity|].
  split; [vm_compute; reflexivity|].
  split; [|split; vm_compute; reflexivity].
  apply zero_buffer_not_marker.
Qed.

(** The sibling path keeps the marker: when the eviction is done by NewPage,
    the buffer is written back under the victim's own id and a later
    FetchPage(0) brings the marker back. *)
Lemma marker_kept_by_new_eviction :
  ∃ s s',
    run [FetchPage 0; WriteData 0 marker; UnpinPage 0 true;
         NewPage; UnpinPage 2 false]
        (BufferPoolManager_new 1 disk01) = Some s ∧
    FetchPageImpl 0 s = Returns s' (Some 0) ∧
    data_ (page s' 0) = marker.
Proof.
  eexists. eexists.
  split; [vm_compute; reflexivity|].
  split; vm_compute; reflexivity.
Qed.

(** ** C5: the partition of the frames *)

(** C5: the code breaks the property.  After FetchPage(0),
    UnpinPage(0, false) and DeletePage(0) on a pool of one frame, frame 0 is
    on the free list and still tracked by the replacer, and it still records
    page id 0 while the page table is empty: the frame is both free and
    evictable, and an occupied frame is missing from the page table. *)
Theorem DeletePage_leaves_frame_tracked :
  ∃ s,
    run [FetchPage 0; UnpinPage 0 false; DeletePage 0]
        (BufferPoolManager_new 1 disk01) = Some s ∧
    reachable s ∧
    free_list_ s = [0] ∧
    ClockReplacer.ref_bits (replacer_ s) = [Some true] ∧
    page_id_ (page s 0) = 0%Z ∧
    page_table_ s = ∅ ∧
    on_free_list s 0 ∧ evictable s 0 ∧
    ¬ frame_partition s ∧ ¬ page_table_exact s.
Proof.
  eexists. split; [vm_compute; reflexivity|].
  match goal with |- reachable ?s ∧ _ => set (s1 := s) end.
  assert (Hfree : on_free_list s1 0) by (apply elem_of_cons; by left).
  assert (Hev : evictable s1 0).
  { split; [discriminate|]. split; [reflexivity|]. by exists true. }
  split.
  { apply (run_reachable [FetchPage 0; UnpinPage 0 false; DeletePage 0]
             (BufferPoolManager_new 1 disk01)); [apply reachable_new|].
    vm_compute. reflexivity. }
  do 4 (split; [reflexivity|]).
  split; [done|]. split; [done|]. split.
  - intros Hpart. destruct (Hpart 0) as [(_ & _ & Hne)|[(Hnf & _)|(Hnf & _)]];
      [simpl; lia|done..].
  - intros [Hocc _]. destruct (Hocc 0) as [Hex _]; [simpl; lia|].
    destruct Hex as [p Hp]; [discriminate|].
    change (page_table_ s1) with (∅ : gmap Z nat) in Hp.
    by rewrite lookup_empty in Hp.
Qed.

(** ** C6: the latch *)

(** C6: the code breaks the property.  When no frame can be acquired,
    [FetchPageImpl] returns [nullptr] with the latch still held; every later
    call of an operation that takes the latch then waits for ever. *)
Theorem FetchPage_exhausted_keeps_latch s page_id :
  latch_ s = false → page_table_ s !! page_id = None → exhausted s →
  ∃ s', FetchPageImpl page_id s = Returns s' None ∧
    latch_ s' = true ∧
    (∀ p, FetchPageImpl p s' = Blocks) ∧
    (∀ p d, UnpinPageImpl p d s' = Blocks) ∧
    NewPageImpl s' = Blocks ∧
    (∀ p, DeletePageImpl p s' = Blocks) ∧
    FlushAllPagesImpl s' = Blocks.
Proof.
  intros Hl Ht [Hfl Hv]. exists (set_latch true s).
  split; [by apply FetchPageImpl_exhausted|].
  split; [done|]. by apply locked_Blocks.
Qed.

Lemma FetchPage_exhausted_keeps_latch_witness :
  ∃ s', FetchPageImpl 1 pinned_page0 = Returns s' None ∧
    latch_ s' = true ∧
    (∀ p, FetchPageImpl p s' = Blocks) ∧
    (∀ p d, UnpinPageImpl p d s' = Blocks) ∧
    NewPageImpl s' = Blocks ∧
    (∀ p, DeletePageImpl p s' = Blocks) ∧
    FlushAllPagesImpl s' = Blocks.
Proof.
  apply (FetchPage_exhausted_keeps_latch pinned_page0 1).
  - reflexivity.
  - reflexivity.
  - split; [reflexivity|]. vm_compute. reflexivity.
Defined.

(** [FlushPageImpl] never takes the latch: it returns whether or not the
    latch is held, and leaves it as it found it. *)
Lemma FlushPage_ignores_latch s page_id :
  latch_ (fst (FlushPageImpl page_id s)) = latch_ s.
Proof.
  unfold FlushPageImpl.
  destruct (page_table_ s !! page_id) as [f|]; [|done].
  by destruct (is_dirty_ (page s f)).
Qed.

(** ** C7: when FetchPage and NewPage fail *)

Lemma exhausted_iff s :
  exhausted s ↔ free_list_ s = [] ∧ ∀ f, ¬ ClockReplacer.tracked (replacer_ s) f.
Proof. unfold exhausted. by rewrite Victim_None_iff. Qed.

(** In a reachable state the latch is only held when no frame can be
    acquired. *)
Lemma reachable_latched_exhausted s :
  reachable s → latch_ s = true → exhausted s.
Proof.
  intros Hs Hl. apply exhausted_iff. by apply (Inv_latch s (reachable_Inv s Hs)).
Qed.

Lemma FetchPage_miss_result s page_id :
  Inv s → latch_ s = false → page_table_ s !! page_id = None →
  ∃ s' r, FetchPageImpl page_id s = Returns s' r ∧
    (r = None ↔ exhausted s) ∧
    (∀ f, r = Some f → f < pool_size_ s ∧ page_table_ s' !! page_id = Some f).
Proof.
  intros HInv Hl Ht. unfold exhausted.
  destruct (free_list_ s) as [|f rest] eqn:Hfl.
  - destruct (ClockReplacer.Victim (replacer_ s)) as [[f r]|] eqn:Hv.
    + pose proof (Victim_lt s f r HInv Hv) as Hlt.
      eexists _, _. split; [by apply (FetchPageImpl_evict s page_id f r)|].
      split; [split; [done|by intros [_ ?]]|].
      intros g [= <-]. simpl. rewrite lookup_insert_eq.
      by rewrite <- (Inv_pages s HInv).
    + eexists _, _. split; [by apply FetchPageImpl_exhausted|].
      split; [done|]. by intros g.
  - assert (Hf : f ∈ free_list_ s) by (rewrite Hfl; left).
    pose proof (Inv_free_lt s HInv f Hf) as Hlt.
    eexists _, _. split.
    + apply (FetchPageImpl_free s page_id f rest); try done.
      by rewrite (Inv_pages s HInv).
    + split; [split; [done|by intros [? _]]|].
      intros g [= <-]. simpl. by rewrite lookup_insert_eq.
Qed.

Lemma NewPage_result s :
  Inv s → latch_ s = false →
  ∃ s' r, NewPageImpl s = Returns s' r ∧
    (r = None ↔ exhausted s) ∧
    (∀ page_id f, r = Some (page_id, f) →
       f < pool_size_ s ∧ page_table_ s' !! page_id = Some f).
Proof.
  intros HInv Hl. unfold exhausted.
  destruct (last (free_list_ s)) as [f|] eqn:Hlast.
  - assert (Hf : f ∈ free_list_ s) by (by apply last_Some_elem_of).
    pose proof (Inv_free_lt s HInv f Hf) as Hlt.
    eexists _, _. split.
    + apply (NewPageImpl_free s f); try done. by rewrite (Inv_pages s HInv).
    + split.
      * split; [done|]. intros [Hfl _]. rewrite Hfl in Hf.
        by apply elem_of_nil in Hf.
      * intros p g [= <- <-]. simpl. by rewrite lookup_insert_eq.
  - apply last_None in Hlast.
    destruct (ClockReplacer.Victim (replacer_ s)) as [[f r]|] eqn:Hv.
    + pose proof (Victim_lt s f r HInv Hv) as Hlt.
      eexists _, _. split; [by apply (NewPageImpl_evict s f r)|].
      split; [split; [done|by intros [_ ?]]|].
      intros p g [= <- <-]. simpl. rewrite lookup_insert_eq.
      by rewrite <- (Inv_pages s HInv).
    + eexists _, _. split; [by apply NewPageImpl_exhausted|].
      split; [done|]. by intros p g.
Qed.

(** With the latch free, FetchPage of a page that is not resident, and
    NewPage, return; the result is [nullptr] exactly when the free list is
    empty and the replacer yields no victim, and a returned handle is a frame
    of the pool, bound to the page.  Whenever a frame can be acquired the
    latch is free and both calls return a handle.  The replacer yields no
    victim exactly when it tracks no frame. *)
Lemma fetch_and_new_results s page_id :
  reachable s →
  (latch_ s = false → page_table_ s !! page_id = None →
     ∃ s' r, FetchPageImpl page_id s = Returns s' r ∧
       (r = None ↔ exhausted s) ∧
       (∀ f, r = Some f → f < pool_size_ s ∧ page_table_ s' !! page_id = Some f)) ∧
  (latch_ s = false →
     ∃ s' r, NewPageImpl s = Returns s' r ∧
       (r = None ↔ exhausted s) ∧
       (∀ p f, r = Some (p, f) → f < pool_size_ s ∧ page_table_ s' !! p = Some f)) ∧
  (¬ exhausted s → page_table_ s !! page_id = None →
     ∃ s' f, FetchPageImpl page_id s = Returns s' (Some f)) ∧
  (¬ exhausted s → ∃ s' p f, NewPageImpl s = Returns s' (Some (p, f))) ∧
  (exhausted s ↔
     free_list_ s = [] ∧ ∀ f, ¬ ClockReplacer.tracked (replacer_ s) f).
Proof.
  intros Hs. pose proof (reachable_Inv s Hs) as HInv.
  assert (Hfree : ¬ exhausted s → latch_ s = false).
  { intros Hne. destruct (latch_ s) eqn:Hl; [|done].
    destruct Hne. by apply reachable_latched_exhausted. }
  split; [by apply FetchPage_miss_result|].
  split; [by apply NewPage_result|].
  split.
  { intros Hne Ht.
    destruct (FetchPage_miss_result s page_id HInv (Hfree Hne) Ht)
      as (s' & [f|] & Hr & Hiff & _); [by eauto|].
    destruct Hne. by apply Hiff. }
  split.
  { intros Hne.
    destruct (NewPage_result s HInv (Hfree Hne))
      as (s' & [[p f]|] & Hr & Hiff & _); [by eauto|].
    destruct Hne. by apply Hiff. }
  apply exhausted_iff.
Qed.

(** A pool in which every frame has a pin count other than 0 is one in which
    no frame can be acquired. *)
Lemma all_pinned_exhausted s :
  reachable s → (∀ f, f < pool_size_ s → pin_count_ (page s f) ≠ 0%Z) →
  exhausted s.
Proof.
  intros Hs Hall. pose proof (reachable_Inv s Hs) as HInv.
  apply exhausted_iff. split.
  - destruct (free_list_ s) as [|f rest] eqn:Hfl; [done|].
    assert (Hf : f ∈ free_list_ s) by (rewrite Hfl; left).
    destruct (Hall f (Inv_free_lt s HInv f Hf)).
    by apply (Inv_free_clean s HInv f Hf).
  - intros f Hf. apply (Hall f).
    + destruct Hf as [b Hb]. apply lookup_lt_Some in Hb.
      by rewrite (Inv_replacer s HInv) in Hb.
    + by apply reachable_tracked_unpinned.
Qed.

(** C7: the code breaks the property.  A failed FetchPage leaves the latch
    held, and from then on the pool is one in which no frame can be acquired
    (the free list is empty and the replacer yields no victim), but neither
    FetchPage of a page that is not resident nor NewPage returns [nullptr]:
    both wait for the latch and never return. *)
Theorem exhausted_calls_never_return s page_id :
  reachable s → latch_ s = true → page_table_ s !! page_id = None →
  exhausted s ∧ FetchPageImpl page_id s = Blocks ∧ NewPageImpl s = Blocks.
Proof.
  intros Hs Hl _. split; [by apply reachable_latched_exhausted|].
  split; by apply locked_Blocks.
Qed.

Lemma reachable_pinned_page0 : reachable pinned_page0.
Proof.
  apply (run_reachable [FetchPage 0] (BufferPoolManager_new 1 disk01)).
  - apply reachable_new.
  - apply run_pinned_page0.
Qed.

Lemma reachable_dirty_page0 : reachable dirty_page0.
Proof.
  apply (run_reachable [FetchPage 0; WriteData 0 marker; UnpinPage 0 true]
           (BufferPoolManager_new 1 disk01)).
  - apply reachable_new.
  - apply run_dirty_page0.
Qed.

Lemma run_latched_page0 :
  run [FetchPage 0; FetchPage 1] (BufferPoolManager_new 1 disk01)
  = Some latched_page0.
Proof. vm_compute. reflexivity. Qed.

Lemma reachable_latched_page0 : reachable latched_page0.
Proof.
  apply (run_reachable [FetchPage 0; FetchPage 1]
           (BufferPoolManager_new 1 disk01)).
  - apply reachable_new.
  - apply run_latched_page0.
Qed.

Lemma exhausted_calls_never_return_witness :
  run [FetchPage 0; FetchPage 1] (BufferPoolManager_new 1 disk01)
  = Some latched_page0 ∧
  exhausted latched_page0 ∧ FetchPageImpl 2 latched_page0 = Blocks ∧
  NewPageImpl latched_page0 = Blocks.
Proof.
  split; [apply run_latched_page0|].
  apply (exhausted_calls_never_return latched_page0 2 reachable_latched_page0).
  - reflexivity.
  - reflexivity.
Defined.

(** ** The paths that release the latch *)

(** The failure path of [FetchPageImpl] is the only one that returns with the
    latch held: a call that starts in a reachable state with the latch free
    and ends with the latch held is a FetchPage of a page that is not
    resident in a pool where no frame can be acquired. *)
Lemma latch_held_only_by_FetchPage s o s' :
  reachable s → latch_ s = false → run_op o s = Some s' → latch_ s' = true →
  ∃ page_id, o = FetchPage page_id ∧ page_table_ s !! page_id = None ∧
    exhausted s.
Proof.
  intros Hs Hl Hrun Hl'. pose proof (reachable_Inv s Hs) as HInv.
  destruct o as [page_id|page_id is_dirty|page_id| |page_id| |f buf];
    simpl in Hrun.
  - destruct (page_table_ s !! page_id) as [f|] eqn:Ht.
    { rewrite (FetchPageImpl_hit s page_id f) in Hrun by done.
      injection Hrun as <-. done. }
    destruct (FetchPage_miss_result s page_id HInv Hl Ht)
      as (s1 & [f|] & Hr & Hiff & _).
    + exfalso. rewrite Hr in Hrun. injection Hrun as <-.
      destruct (free_list_ s) as [|g rest] eqn:Hfl.
      * destruct (ClockReplacer.Victim (replacer_ s)) as [[g r]|] eqn:Hv.
        -- rewrite (FetchPageImpl_evict s page_id g r) in Hr
             by eauto using Victim_lt.
           injection Hr as <- _. done.
        -- rewrite FetchPageImpl_exhausted in Hr by done. done.
      * assert (Hg : g ∈ free_list_ s) by (rewrite Hfl; left).
        pose proof (Inv_free_lt s HInv g Hg) as Hlt.
        rewrite <- (Inv_pages s HInv) in Hlt.
        rewrite (FetchPageImpl_free s page_id g rest) in Hr by done.
        injection Hr as <- _. done.
    + exists page_id. split; [done|]. split; [done|]. by apply Hiff.
  - exfalso. destruct (page_table_ s !! page_id) as [f|] eqn:Ht.
    + destruct (decide (pin_count_ (page s f) ≤ 0)%Z).
      * rewrite (UnpinPageImpl_unpinned s page_id is_dirty f) in Hrun by done.
        injection Hrun as <-. congruence.
      * destruct (Inv_table s HInv _ _ Ht) as (Hlt & _).
        rewrite <- (Inv_pages s HInv) in Hlt.
        pose proof (Inv_range s HInv f).
        rewrite (UnpinPageImpl_pinned s page_id is_dirty f) in Hrun
          by (done || lia).
        injection Hrun as <-. done.
    + rewrite UnpinPageImpl_absent in Hrun by done.
      injection Hrun as <-. congruence.
  - exfalso. injection Hrun as <-. rewrite FlushPage_ignores_latch in Hl'.
    congruence.
  - exfalso. destruct (NewPage_result s HInv Hl) as (s1 & r & Hr & _).
    rewrite Hr in Hrun. injection Hrun as <-.
    destruct (last (free_list_ s)) as [f|] eqn:Hlast.
    + assert (Hf : f ∈ free_list_ s) by (by apply last_Some_elem_of).
      pose proof (Inv_free_lt s HInv f Hf) as Hlt.
      rewrite <- (Inv_pages s HInv) in Hlt.
      rewrite (NewPageImpl_free s f) in Hr by done.
      injection Hr as <- _. done.
    + apply last_None in Hlast.
      destruct (ClockReplacer.Victim (replacer_ s)) as [[f r']|] eqn:Hv.
      * rewrite (NewPageImpl_evict s f r') in Hr by eauto using Victim_lt.
        injection Hr as <- _. done.
      * rewrite NewPageImpl_exhausted in Hr by done.
        injection Hr as <- _. congruence.
  - exfalso. destruct (page_table_ s !! page_id) as [f|] eqn:Ht.
    + destruct (decide (page_id_ (page s f) = 0%Z)).
      * destruct (Inv_table s HInv _ _ Ht) as (Hlt & _).
        rewrite <- (Inv_pages s HInv) in Hlt.
        rewrite (DeletePageImpl_deleted s page_id f) in Hrun by done.
        injection Hrun as <-. done.
      * rewrite (DeletePageImpl_refused s page_id f) in Hrun by done.
        injection Hrun as <-. congruence.
    + rewrite DeletePageImpl_absent in Hrun by done.
      injection Hrun as <-. congruence.
  - exfalso. rewrite FlushAllPagesImpl_free in Hrun by done.
    injection Hrun as <-.
    assert (Hfold : ∀ l s0, latch_ (foldl flush_frame s0 l) = latch_ s0).
    { induction l as [|i l IH]; intros s0; simpl; [done|].
      by rewrite IH, latch_flush_frame. }
    rewrite Hfold in Hl'. congruence.
  - exfalso. injection Hrun as <-. simpl in Hl'. congruence.
Qed.

(** ** C8: pin counts *)

Lemma FetchPage_page0_pinned k :
  run_op (FetchPage 0) (page0_pinned k) = Some (page0_pinned (int_wrap (k + 1))).
Proof. reflexivity. Qed.

Lemma run_page0_pinned n : ∀ k,
  (1 ≤ k)%Z → (k + Z.of_nat n ≤ INT_MAX)%Z →
  run (repeat (FetchPage 0) n) (page0_pinned k)
  = Some (page0_pinned (k + Z.of_nat n)).
Proof.
  induction n as [|n IH]; intros k Hk Hn.
  - simpl. by rewrite Z.add_0_r.
  - cbn [repeat run]. rewrite FetchPage_page0_pinned.
    rewrite int_wrap_id by int_lia. rewrite IH by lia. do 2 f_equal. lia.
Qed.

Lemma run_app ops1 ops2 s :
  run (ops1 ++ ops2) s = run ops1 s ≫= run ops2.
Proof.
  revert s. induction ops1 as [|o ops1 IH]; intros s; simpl; [done|].
  by destruct (run_op o s).
Qed.

(** C8: counterexample.  FetchPage only ever increments the pin count of a
    resident page: after 2147483648 calls of FetchPage(0) on a pool of one
    frame the pin count of frame 0 has wrapped around to [INT_MIN]. *)
Lemma pin_count_negative_after_overflow :
  run (repeat (FetchPage 0) (Z.to_nat 2147483648))
      (BufferPoolManager_new 1 disk01) = Some (page0_pinned INT_MIN) ∧
  reachable (page0_pinned INT_MIN) ∧
  pin_count_ (page (page0_pinned INT_MIN) 0) = (-2147483648)%Z.
Proof.
  assert (Hrun : run (repeat (FetchPage 0) (Z.to_nat 2147483648))
                   (BufferPoolManager_new 1 disk01)
                 = Some (page0_pinned INT_MIN)).
  { assert (Hn : Z.to_nat 2147483648
                 = 1 + (Z.to_nat 2147483646 + 1)) by lia.
    rewrite Hn. rewrite repeat_app. rewrite run_app.
    change (run (repeat (FetchPage 0) 1) (BufferPoolManager_new 1 disk01))
      with (Some (page0_pinned 1)).
    cbn [mbind option_bind]. rewrite repeat_app, run_app.
    rewrite run_page0_pinned by int_lia. cbn [mbind option_bind].
    cbn [repeat run]. rewrite FetchPage_page0_pinned.
    rewrite Z2Nat.id by lia. reflexivity. }
  split; [done|]. split; [|reflexivity].
  by apply (run_reachable _ _ _ (reachable_new 1 disk01) Hrun).
Qed.

(** C8, amended.  As long as no pin count overflows, the pin count of every
    frame is at least 0, and UnpinPage of a resident page whose pin count is
    0 returns false and leaves the whole state, the pin count included, as it
    was. *)
Theorem pin_count_never_negative_without_overflow s page_id is_dirty f :
  reachable_without_overflow s →
  (∀ g p, pages_ s !! g = Some p → (0 ≤ pin_count_ p)%Z) ∧
  (page_table_ s !! page_id = Some f → pin_count_ (page s f) = 0%Z →
   UnpinPageImpl page_id is_dirty s = Returns s false).
Proof.
  intros Hs. pose proof (reachable_without_overflow_pin_counts s Hs) as [Hge Htr].
  apply reachable_without_overflow_reachable in Hs.
  pose proof (reachable_Inv s Hs) as HInv. split.
  - intros g p Hg. specialize (Hge g).
    unfold page in Hge. by rewrite (list_lookup_total_correct _ _ _ Hg) in Hge.
  - intros Ht Hz.
    assert (Hl : latch_ s = false).
    { destruct (latch_ s) eqn:Hl; [|done].
      destruct (Inv_latch s HInv Hl) as [_ Hnone].
      destruct (Hnone f). by apply (Htr page_id). }
    apply (UnpinPageImpl_unpinned s page_id is_dirty f); try done. lia.
Qed.

Lemma reachable_unpinned_page1 : reachable unpinned_page1.
Proof.
  apply (run_reachable [FetchPage 1; UnpinPage 1 false]
           (BufferPoolManager_new 1 disk01)).
  - apply reachable_new.
  - apply run_unpinned_page1.
Qed.

Lemma pinned_page0_without_overflow :
  reachable_without_overflow pinned_page0.
Proof.
  apply (short_run_without_overflow [FetchPage 0] 1 disk01).
  - apply run_pinned_page0.
  - done.
Qed.

Lemma unpinned_page1_without_overflow :
  reachable_without_overflow unpinned_page1.
Proof.
  apply (short_run_without_overflow [FetchPage 1; UnpinPage 1 false] 1 disk01).
  - apply run_unpinned_page1.
  - done.
Qed.

Lemma pin_count_never_negative_without_overflow_witness :
  (∀ g p, pages_ unpinned_page1 !! g = Some p → (0 ≤ pin_count_ p)%Z) ∧
  UnpinPageImpl 1 true unpinned_page1 = Returns unpinned_page1 false.
Proof.
  destruct (pin_count_never_negative_without_overflow unpinned_page1 1 true 0
              unpinned_page1_without_overflow) as [Hpin Hunpin].
  split; [exact Hpin|]. apply Hunpin; reflexivity.
Defined.

(** ** C9: FlushPage *)

(** C9.  FlushPage fails exactly when the page is not resident, and then
    changes nothing.  For a resident dirty page it hands the frame's buffer
    to [WritePage] under the page id it was called with, clears the dirty
    flag of that frame and succeeds; nothing else changes.  For a resident
    clean page it succeeds and the state, the history of disk calls included,
    is unchanged. *)
Theorem FlushPage_spec s page_id :
  (snd (FlushPageImpl page_id s) = false ↔ page_table_ s !! page_id = None) ∧
  (page_table_ s !! page_id = None → FlushPageImpl page_id s = (s, false)) ∧
  (∀ f, page_table_ s !! page_id = Some f → is_dirty_ (page s f) = true →
     f < length (pages_ s) →
     ∃ s', FlushPageImpl page_id s = (s', true) ∧
       disk_manager_ s' =
         DiskManager.WritePage page_id (data_ (page s f)) (disk_manager_ s) ∧
       DiskManager.calls (disk_manager_ s') =
         DiskManager.WritePageCall page_id (data_ (page s f))
         :: DiskManager.calls (disk_manager_ s) ∧
       page s' f = set_is_dirty false (page s f) ∧
       (∀ g, g ≠ f → page s' g = page s g) ∧
       page_table_ s' = page_table_ s ∧ free_list_ s' = free_list_ s ∧
       replacer_ s' = replacer_ s ∧ latch_ s' = latch_ s ∧
       pool_size_ s' = pool_size_ s) ∧
  (∀ f, page_table_ s !! page_id = Some f → is_dirty_ (page s f) = false →
     FlushPageImpl page_id s = (s, true)).
Proof.
  split; [|split; [|split]].
  - unfold FlushPageImpl. destruct (page_table_ s !! page_id) as [f|].
    + by destruct (is_dirty_ (page s f)).
    + done.
  - apply FlushPageImpl_absent.
  - intros f Ht Hd Hlt. eexists. split; [by apply FlushPageImpl_dirty|].
    split; [done|]. split; [done|].
    split; [by rewrite page_insert, decide_True|].
    split; [|done].
    intros g Hne. rewrite page_insert by done. by rewrite decide_False.
  - intros f. apply FlushPageImpl_clean.
Qed.

Lemma FlushPage_spec_witness :
  (∃ s', FlushPageImpl 0 dirty_page0 = (s', true) ∧
     DiskManager.calls (disk_manager_ s') =
       [DiskManager.WritePageCall 0 marker; DiskManager.ReadPageCall 0] ∧
     page s' 0 = mkPage marker 0 0 false) ∧
  FlushPageImpl 0 pinned_page0 = (pinned_page0, true) ∧
  FlushPageImpl 1 pinned_page0 = (pinned_page0, false).
Proof.
  split; [|split].
  - destruct (FlushPage_spec dirty_page0 0) as (_ & _ & Hdirty & _).
    destruct (Hdirty 0) as (s' & Hf & _ & Hc & Hp & _);
      [reflexivity|reflexivity|simpl; lia|].
    exists s'. split; [exact Hf|]. split; [exact Hc|exact Hp].
  - destruct (FlushPage_spec pinned_page0 0) as (_ & _ & _ & Hclean).
    apply (Hclean 0); reflexivity.
  - destruct (FlushPage_spec pinned_page0 1) as (_ & Habsent & _).
    apply Habsent. reflexivity.
Defined.

(** ** C10: the frames of the free list *)

(** C10.  In every reachable state each frame of the free list has pin count
    0 and is clean.  Hence a frame that FetchPage takes from the front of the
    free list, or NewPage from its back, ends with pin count exactly 1. *)
Theorem free_frames_unpinned_and_clean s :
  reachable s →
  (∀ f, f ∈ free_list_ s →
     pin_count_ (page s f) = 0%Z ∧ is_dirty_ (page s f) = false) ∧
  (∀ page_id f rest,
     page_table_ s !! page_id = None → free_list_ s = f :: rest →
     ∃ s', FetchPageImpl page_id s = Returns s' (Some f) ∧
       pin_count_ (page s' f) = 1%Z) ∧
  (∀ f, last (free_list_ s) = Some f →
     ∃ s' page_id, NewPageImpl s = Returns s' (Some (page_id, f)) ∧
       pin_count_ (page s' f) = 1%Z).
Proof.
  intros Hs. pose proof (reachable_Inv s Hs) as HInv.
  assert (Hfree : free_list_ s ≠ [] → latch_ s = false).
  { intros Hne. destruct (latch_ s) eqn:Hl; [|done].
    destruct Hne. by apply (Inv_latch s HInv). }
  split; [apply HInv|]. split.
  - intros page_id f rest Ht Hfl.
    assert (Hf : f ∈ free_list_ s) by (rewrite Hfl; left).
    pose proof (Inv_free_lt s HInv f Hf) as Hlt.
    rewrite <- (Inv_pages s HInv) in Hlt.
    destruct (Inv_free_clean s HInv f Hf) as [Hz _].
    eexists. split.
    + apply (FetchPageImpl_free s page_id f rest); try done.
      apply Hfree. by rewrite Hfl.
    + rewrite page_insert, decide_True by done. cbn [pin_count_].
      by rewrite Hz.
  - intros f Hlast.
    assert (Hf : f ∈ free_list_ s) by (by apply last_Some_elem_of).
    pose proof (Inv_free_lt s HInv f Hf) as Hlt.
    rewrite <- (Inv_pages s HInv) in Hlt.
    eexists _, _. split.
    + apply (NewPageImpl_free s f); try done.
      apply Hfree. intros Hnil. rewrite Hnil in Hf. by apply elem_of_nil in Hf.
    + by rewrite page_insert, decide_True.
Qed.

Lemma free_frames_unpinned_and_clean_witness :
  (∀ f, f ∈ [0; 1] →
     pin_count_ (page (BufferPoolManager_new 2 disk01) f) = 0%Z ∧
     is_dirty_ (page (BufferPoolManager_new 2 disk01) f) = false) ∧
  (∃ s', FetchPageImpl 0 (BufferPoolManager_new 2 disk01) = Returns s' (Some 0) ∧
     pin_count_ (page s' 0) = 1%Z) ∧
  (∃ s' page_id,
     NewPageImpl (BufferPoolManager_new 2 disk01) = Returns s' (Some (page_id, 1)) ∧
     pin_count_ (page s' 1) = 1%Z).
Proof.
  destruct (free_frames_unpinned_and_clean (BufferPoolManager_new 2 disk01)
              (reachable_new 2 disk01)) as (Hclean & Hfetch & Hnew).
  split; [exact Hclean|]. split.
  - apply (Hfetch 0%Z 0 [1]); reflexivity.
  - apply (Hnew 1). reflexivity.
Defined.

(** * Further properties of the operations *)

(** ** Frames tracked by the replacer *)

(** X5.  In every reachable state a frame that the replacer tracks is a
    frame of the pool with pin count 0; in particular the frame [Victim]
    selects has pin count 0. *)
Theorem victim_is_unpinned s f r :
  reachable s → ClockReplacer.Victim (replacer_ s) = Some (f, r) →
  f < pool_size_ s ∧ pin_count_ (page s f) = 0%Z ∧
  ∀ g, ClockReplacer.tracked (replacer_ s) g →
       g < pool_size_ s ∧ pin_count_ (page s g) = 0%Z.
Proof.
  intros Hs Hv. pose proof (reachable_Inv s Hs) as HInv.
  pose proof (reachable_tracked_unpinned s Hs) as Htr.
  assert (Hall : ∀ g, ClockReplacer.tracked (replacer_ s) g →
                      g < pool_size_ s ∧ pin_count_ (page s g) = 0%Z).
  { intros g Hg. split; [|by apply Htr].
    rewrite <- (Inv_replacer s HInv). by apply tracked_in_lt. }
  apply Victim_Some in Hv as (Hf & _). destruct (Hall f Hf). done.
Qed.

Lemma victim_is_unpinned_witness :
  0 < pool_size_ dirty_page0 ∧ pin_count_ (page dirty_page0 0) = 0%Z ∧
  ∀ g, ClockReplacer.tracked (replacer_ dirty_page0) g →
       g < pool_size_ dirty_page0 ∧ pin_count_ (page dirty_page0 g) = 0%Z.
Proof.
  apply (victim_is_unpinned dirty_page0 0 (ClockReplacer.mk [None] 0)
           reachable_dirty_page0).
  vm_compute. reflexivity.
Defined.

(** ** The frame a miss takes *)

(** The three ways a FetchPage of a page that is not resident can go. *)
Lemma FetchPage_miss_cases s page_id s' f :
  Inv s → tracked_unpinned s → page_table_ s !! page_id = None →
  FetchPageImpl page_id s = Returns s' (Some f) →
  latch_ s = false ∧ f < length (pages_ s) ∧ pin_count_ (page s f) = 0%Z ∧
  ((∃ rest, free_list_ s = f :: rest ∧ is_dirty_ (page s f) = false ∧
      s' = mkBPM (pool_size_ s)
             (<[f := mkPage (default zero_buffer
                               (DiskManager.contents (disk_manager_ s) !! page_id))
                            page_id (int_wrap (pin_count_ (page s f) + 1))
                            false]> (pages_ s))
             (<[page_id := f]> (page_table_ s)) rest
             (ClockReplacer.Pin f (replacer_ s))
             (snd (DiskManager.ReadPage page_id zero_buffer (disk_manager_ s)))
             false) ∨
   (∃ r, free_list_ s = [] ∧
      ClockReplacer.Victim (replacer_ s) = Some (f, r) ∧
      s' = mkBPM (pool_size_ s)
             (<[f := mkPage
                       (default zero_buffer
                          (DiskManager.contents
                             (fetch_write_back page_id (page s f) (disk_manager_ s))
                           !! page_id))
                       page_id (int_wrap (pin_count_ (page s f) + 1))
                       false]> (pages_ s))
             (<[page_id := f]> (delete (page_id_ (page s f)) (page_table_ s))) []
             (ClockReplacer.Pin f r)
             (snd (DiskManager.ReadPage page_id zero_buffer
                     (fetch_write_back page_id (page s f) (disk_manager_ s))))
             false)).
Proof.
  intros HInv Htr Ht Hr.
  destruct (latch_ s) eqn:Hl.
  { by rewrite (proj1 (locked_Blocks s Hl)) in Hr. }
  split; [done|].
  destruct (free_list_ s) as [|g rest] eqn:Hfl.
  - destruct (ClockReplacer.Victim (replacer_ s)) as [[g r]|] eqn:Hv.
    + pose proof (Victim_lt s g r HInv Hv) as Hlt.
      rewrite (FetchPageImpl_evict s page_id g r) in Hr by done.
      injection Hr as <- <-. split; [done|].
      split; [apply Htr; by apply Victim_Some in Hv as (? & _)|].
      right. by exists r.
    + by rewrite FetchPageImpl_exhausted in Hr.
  - assert (Hg : g ∈ free_list_ s) by (rewrite Hfl; left).
    pose proof (Inv_free_lt s HInv g Hg) as Hlt.
    rewrite <- (Inv_pages s HInv) in Hlt.
    destruct (Inv_free_clean s HInv g Hg) as [Hz Hd].
    rewrite (FetchPageImpl_free s page_id g rest) in Hr by done.
    injection Hr as <- <-. split; [done|]. split; [done|].
    left. by exists rest.
Qed.

(** The two ways a NewPage that succeeds can go. *)
Lemma NewPage_cases s s' page_id f :
  Inv s → tracked_unpinned s →
  NewPageImpl s = Returns s' (Some (page_id, f)) →
  latch_ s = false ∧ f < length (pages_ s) ∧ pin_count_ (page s f) = 0%Z ∧
  page_id = DiskManager.next_page_id (disk_manager_ s) ∧
  ((last (free_list_ s) = Some f ∧
      s' = mkBPM (pool_size_ s)
             (<[f := mkPage zero_buffer page_id 1 false]> (pages_ s))
             (<[page_id := f]> (page_table_ s)) (removelast (free_list_ s))
             (ClockReplacer.Pin f (replacer_ s))
             (snd (DiskManager.AllocatePage (disk_manager_ s)))
             false) ∨
   (∃ r, free_list_ s = [] ∧
      ClockReplacer.Victim (replacer_ s) = Some (f, r) ∧
      s' = mkBPM (pool_size_ s)
             (<[f := mkPage zero_buffer page_id 1 false]> (pages_ s))
             (<[page_id := f]> (delete (page_id_ (page s f)) (page_table_ s))) []
             (ClockReplacer.Pin f r)
             (snd (DiskManager.AllocatePage
                     (new_write_back (page s f) (disk_manager_ s))))
             false)).
Proof.
  intros HInv Htr Hr.
  destruct (latch_ s) eqn:Hl.
  { by rewrite (proj1 (proj2 (proj2 (locked_Blocks s Hl)))) in Hr. }
  split; [done|].
  destruct (last (free_list_ s)) as [g|] eqn:Hlast.
  - assert (Hg : g ∈ free_list_ s) by (by apply last_Some_elem_of).
    pose proof (Inv_free_lt s HInv g Hg) as Hlt.
    rewrite <- (Inv_pages s HInv) in Hlt.
    destruct (Inv_free_clean s HInv g Hg) as [Hz _].
    rewrite (NewPageImpl_free s g) in Hr by done.
    injection Hr as <- <- <-. split; [done|]. split; [done|].
    split; [done|]. by left.
  - apply last_None in Hlast.
    destruct (ClockReplacer.Victim (replacer_ s)) as [[g r]|] eqn:Hv.
    + pose proof (Victim_lt s g r HInv Hv) as Hlt.
      rewrite (NewPageImpl_evict s g r) in Hr by done.
      injection Hr as <- <- <-. split; [done|].
      split; [apply Htr; by apply Victim_Some in Hv as (? & _)|].
      split; [done|]. right. by exists r.
    + by rewrite NewPageImpl_exhausted in Hr.
Qed.

(** X4.  In a reachable state the frame that a FetchPage miss or a NewPage
    takes over had pin count 0 before the call, and is pinned exactly once
    after it; every other frame of the pool keeps its buffer, page id, pin
    count and dirty flag. *)
Theorem acquired_frame_was_unpinned s page_id :
  reachable s →
  (∀ s' f, page_table_ s !! page_id = None →
     FetchPageImpl page_id s = Returns s' (Some f) →
     pin_count_ (page s f) = 0%Z ∧
     page_id_ (page s' f) = page_id ∧ pin_count_ (page s' f) = 1%Z ∧
     is_dirty_ (page s' f) = false ∧
     ∀ g, g ≠ f → page s' g = page s g) ∧
  (∀ s' p f, NewPageImpl s = Returns s' (Some (p, f)) →
     pin_count_ (page s f) = 0%Z ∧
     page s' f = mkPage zero_buffer p 1 false ∧
     ∀ g, g ≠ f → page s' g = page s g).
Proof.
  intros Hs. pose proof (reachable_Inv s Hs) as HInv.
  pose proof (reachable_tracked_unpinned s Hs) as Htr. split.
  - intros s' f Ht Hr.
    destruct (FetchPage_miss_cases s page_id s' f HInv Htr Ht Hr)
      as (_ & Hlt & Hz & [(rest & _ & _ & ->)|(r & _ & _ & ->)]);
      (split; [done|]); rewrite !page_insert, !decide_True by done;
      rewrite Hz; cbn [page_id_ pin_count_ is_dirty_];
      (split; [done|]); (split; [done|]); (split; [done|]);
      intros g Hne; rewrite page_insert by done; by rewrite decide_False.
  - intros s' p f Hr.
    destruct (NewPage_cases s s' p f HInv Htr Hr)
      as (_ & Hlt & Hz & _ & [(_ & ->)|(r & _ & _ & ->)]);
      (split; [done|]); rewrite !page_insert, !decide_True by done;
      (split; [done|]);
      intros g Hne; rewrite page_insert by done; by rewrite decide_False.
Qed.

Lemma acquired_frame_was_unpinned_witness :
  ∃ s', FetchPageImpl 1 dirty_page0 = Returns s' (Some 0) ∧
    pin_count_ (page dirty_page0 0) = 0%Z ∧
    page_id_ (page s' 0) = 1%Z ∧ pin_count_ (page s' 0) = 1%Z ∧
    is_dirty_ (page s' 0) = false ∧
    ∀ g, g ≠ 0 → page s' g = page dirty_page0 g.
Proof.
  eexists. split; [vm_compute; reflexivity|].
  apply (proj1 (acquired_frame_was_unpinned dirty_page0 1 reachable_dirty_page0)).
  - reflexivity.
  - vm_compute. reflexivity.
Defined.



(** ** Resident pages *)

(** X2.  FetchPage of a resident page, entered with the latch free, always
    succeeds, also when no frame could be acquired: it returns the frame of
    the page, increments its pin count as a 32-bit [int] (one more, as long
    as the count is below [INT_MAX]) and removes it from the replacer; it
    calls the disk not at all and changes no other frame, nor the page table,
    nor the free list. *)
Theorem FetchPage_resident s page_id f :
  reachable s → latch_ s = false → page_table_ s !! page_id = Some f →
  ∃ s', FetchPageImpl page_id s = Returns s' (Some f) ∧
    page s' f = set_pin_count (int_wrap (pin_count_ (page s f) + 1)) (page s f) ∧
    ((pin_count_ (page s f) < INT_MAX)%Z →
       pin_count_ (page s' f) = (pin_count_ (page s f) + 1)%Z) ∧
    (∀ g, g ≠ f → page s' g = page s g) ∧
    disk_manager_ s' = disk_manager_ s ∧
    page_table_ s' = page_table_ s ∧ free_list_ s' = free_list_ s ∧
    ¬ ClockReplacer.tracked (replacer_ s') f ∧
    (∀ g, g ≠ f → ClockReplacer.tracked (replacer_ s') g
                  ↔ ClockReplacer.tracked (replacer_ s) g) ∧
    latch_ s' = false.
Proof.
  intros Hs Hl Ht. pose proof (reachable_Inv s Hs) as HInv.
  destruct (Inv_table s HInv _ _ Ht) as (Hlt & _).
  rewrite <- (Inv_pages s HInv) in Hlt.
  eexists. split; [by apply FetchPageImpl_hit|].
  split; [by rewrite page_insert, decide_True|].
  split.
  { intros Hmax. pose proof (Inv_range s HInv f).
    rewrite page_insert, decide_True by done. cbn [set_pin_count pin_count_].
    apply int_wrap_id. int_lia. }
  split; [intros g Hne; rewrite page_insert by done; by rewrite decide_False|].
  do 3 (split; [done|]). simpl.
  split; [rewrite tracked_Pin; by intros [_ ?]|].
  split; [|done]. intros g Hne. rewrite tracked_Pin. tauto.
Qed.

Lemma FetchPage_resident_witness :
  ∃ s', FetchPageImpl 0 pinned_page0 = Returns s' (Some 0) ∧
    page s' 0 = mkPage zero_buffer 0 2 false ∧
    ((1 < INT_MAX)%Z → pin_count_ (page s' 0) = 2%Z) ∧
    (∀ g, g ≠ 0 → page s' g = page pinned_page0 g) ∧
    disk_manager_ s' = disk_manager_ pinned_page0 ∧
    page_table_ s' = page_table_ pinned_page0 ∧
    free_list_ s' = free_list_ pinned_page0 ∧
    ¬ ClockReplacer.tracked (replacer_ s') 0 ∧
    (∀ g, g ≠ 0 → ClockReplacer.tracked (replacer_ s') g
                  ↔ ClockReplacer.tracked (replacer_ pinned_page0) g) ∧
    latch_ s' = false.
Proof.
  apply (FetchPage_resident pinned_page0 0 0 reachable_pinned_page0);
    reflexivity.
Defined.

(** A hit, in terms of the frame alone. *)
Lemma FetchPageImpl_hit_frame s page_id f :
  latch_ s = false → page_table_ s !! page_id = Some f →
  f < length (pages_ s) →
  ∃ s', FetchPageImpl page_id s = Returns s' (Some f) ∧
    disk_manager_ s' = disk_manager_ s ∧
    page s' f = set_pin_count (int_wrap (pin_count_ (page s f) + 1)) (page s f).
Proof.
  intros Hl Ht Hlt. eexists. split; [by apply FetchPageImpl_hit|].
  split; [done|]. by rewrite page_insert, decide_True.
Qed.

(** X6.  A page that FetchPage or NewPage handed out stays resident in the
    same frame: a FetchPage of it right after returns that frame again
    without any disk call and increments its pin count as a 32-bit [int].
    The pin count is then exactly 2 when the page was not resident before
    the first call, and after NewPage, where the zero buffer is still in
    place. *)
Theorem handed_out_page_stays_resident s page_id :
  reachable s →
  (∀ s1 f, FetchPageImpl page_id s = Returns s1 (Some f) →
     ∃ s2, FetchPageImpl page_id s1 = Returns s2 (Some f) ∧
       disk_manager_ s2 = disk_manager_ s1 ∧
       pin_count_ (page s2 f) = int_wrap (pin_count_ (page s1 f) + 1) ∧
       (page_table_ s !! page_id = None → pin_count_ (page s2 f) = 2%Z)) ∧
  (∀ s1 p f, NewPageImpl s = Returns s1 (Some (p, f)) →
     ∃ s2, FetchPageImpl p s1 = Returns s2 (Some f) ∧
       disk_manager_ s2 = disk_manager_ s1 ∧
       page s2 f = mkPage zero_buffer p 2 false).
Proof.
  intros Hs. pose proof (reachable_Inv s Hs) as HInv.
  pose proof (reachable_tracked_unpinned s Hs) as Htr. split.
  - intros s1 f Hr.
    assert (H1 : latch_ s1 = false ∧ page_table_ s1 !! page_id = Some f ∧
                 f < length (pages_ s1) ∧
                 (page_table_ s !! page_id = None →
                  pin_count_ (page s1 f) = 1%Z)).
    { destruct (page_table_ s !! page_id) as [g|] eqn:Ht.
      - destruct (latch_ s) eqn:Hl.
        { by rewrite (proj1 (locked_Blocks s Hl)) in Hr. }
        destruct (Inv_table s HInv _ _ Ht) as (Hlt & _).
        rewrite <- (Inv_pages s HInv) in Hlt.
        rewrite (FetchPageImpl_hit s page_id g) in Hr by done.
        injection Hr as <- <-. cbn [latch_ page_table_ pages_].
        rewrite length_insert. done.
      - destruct (FetchPage_miss_cases s page_id s1 f HInv Htr Ht Hr)
          as (_ & Hlt & Hz & [(rest & _ & _ & ->)|(r & _ & _ & ->)]);
          rewrite page_insert, decide_True by done;
          cbn [latch_ page_table_ pages_ pin_count_];
          rewrite length_insert, lookup_insert_eq, Hz; done. }
    destruct H1 as (Hl1 & Ht1 & Hlt1 & Hp1).
    destruct (FetchPageImpl_hit_frame s1 page_id f Hl1 Ht1 Hlt1)
      as (s2 & Hr2 & Hd2 & Hp2).
    exists s2. split; [done|]. split; [done|]. rewrite Hp2.
    cbn [set_pin_count pin_count_]. split; [done|].
    intros Hnone. by rewrite (Hp1 Hnone).
  - intros s1 p f Hr.
    assert (H1 : latch_ s1 = false ∧ page_table_ s1 !! p = Some f ∧
                 f < length (pages_ s1) ∧
                 page s1 f = mkPage zero_buffer p 1 false).
    { destruct (NewPage_cases s s1 p f HInv Htr Hr)
        as (_ & Hlt & _ & _ & [(_ & ->)|(r & _ & _ & ->)]);
        rewrite page_insert, decide_True by done; cbn;
        rewrite length_insert, lookup_insert_eq; done. }
    destruct H1 as (Hl1 & Ht1 & Hlt1 & Hp1).
    destruct (FetchPageImpl_hit_frame s1 p f Hl1 Ht1 Hlt1)
      as (s2 & Hr2 & Hd2 & Hp2).
    exists s2. split; [done|]. split; [done|]. by rewrite Hp2, Hp1.
Qed.

Lemma handed_out_page_stays_resident_witness :
  ∃ s1 s2,
    NewPageImpl (BufferPoolManager_new 2 disk01) = Returns s1 (Some (2%Z, 1)) ∧
    FetchPageImpl 2 s1 = Returns s2 (Some 1) ∧
    disk_manager_ s2 = disk_manager_ s1 ∧
    page s2 1 = mkPage zero_buffer 2 2 false.
Proof.
  eexists.
  assert (Hnew : NewPageImpl (BufferPoolManager_new 2 disk01)
                 = Returns _ (Some (2%Z, 1))) by (vm_compute; reflexivity).
  destruct (proj2 (handed_out_page_stays_resident
                     (BufferPoolManager_new 2 disk01) 0
                     (reachable_new 2 disk01)) _ 2%Z 1 Hnew)
    as (s2 & Hf & Hd & Hp).
  exists s2. split; [exact Hnew|]. split; [exact Hf|]. split; [exact Hd|exact Hp].
Defined.

(** ** UnpinPage of a pinned page *)

(** X7.  UnpinPage of a resident page with a positive pin count, entered with
    the latch free, succeeds: the pin count goes down by exactly one, the
    dirty flag is set when [is_dirty] is true and otherwise left as it was
    (it is never cleared), and the frame enters the replacer exactly when
    its pin count reaches 0.  The buffer, the page id, the other frames, the
    page table, the free list and the disk are unchanged. *)
Theorem UnpinPage_pinned s page_id is_dirty f :
  reachable s → latch_ s = false → page_table_ s !! page_id = Some f →
  (0 < pin_count_ (page s f))%Z →
  ∃ s', UnpinPageImpl page_id is_dirty s = Returns s' true ∧
    page s' f =
      mkPage (data_ (page s f)) (page_id_ (page s f))
             (pin_count_ (page s f) - 1) (is_dirty || is_dirty_ (page s f)) ∧
    (∀ g, g ≠ f → page s' g = page s g) ∧
    (ClockReplacer.tracked (replacer_ s') f ↔ pin_count_ (page s f) = 1%Z) ∧
    (∀ g, g ≠ f → ClockReplacer.tracked (replacer_ s') g
                  ↔ ClockReplacer.tracked (replacer_ s) g) ∧
    page_table_ s' = page_table_ s ∧ free_list_ s' = free_list_ s ∧
    disk_manager_ s' = disk_manager_ s ∧ latch_ s' = false.
Proof.
  intros Hs Hl Ht Hpin. pose proof (reachable_Inv s Hs) as HInv.
  pose proof (reachable_tracked_unpinned s Hs) as Htr.
  destruct (Inv_table s HInv _ _ Ht) as (Hlt & _).
  assert (Hlt' : f < length (pages_ s)) by (by rewrite (Inv_pages s HInv)).
  assert (Hnt : ¬ ClockReplacer.tracked (replacer_ s) f).
  { intros Hf. apply Htr in Hf. lia. }
  pose proof (Inv_range s HInv f) as [_ Hmax].
  eexists. split; [by apply UnpinPageImpl_pinned|].
  split; [rewrite page_insert, decide_True by done; by destruct is_dirty|].
  split; [intros g Hne; rewrite page_insert by done; by rewrite decide_False|].
  simpl. split; [|split; [|done]].
  - case_decide as Hz.
    + rewrite tracked_Unpin. split; [intros _; lia|]. intros _. right.
      split; [done|]. by rewrite (Inv_replacer s HInv).
    + split; [done|lia].
  - intros g Hne. case_decide; [|done]. rewrite tracked_Unpin.
    split; [intros [?|[? _]]; done|by left].
Qed.

Lemma UnpinPage_pinned_witness :
  ∃ s', UnpinPageImpl 0 true pinned_page0 = Returns s' true ∧
    page s' 0 = mkPage zero_buffer 0 0 true ∧
    (∀ g, g ≠ 0 → page s' g = page pinned_page0 g) ∧
    (ClockReplacer.tracked (replacer_ s') 0 ↔ 1%Z = 1%Z) ∧
    (∀ g, g ≠ 0 → ClockReplacer.tracked (replacer_ s') g
                  ↔ ClockReplacer.tracked (replacer_ pinned_page0) g) ∧
    page_table_ s' = page_table_ pinned_page0 ∧
    free_list_ s' = free_list_ pinned_page0 ∧
    disk_manager_ s' = disk_manager_ pinned_page0 ∧ latch_ s' = false.
Proof.
  apply (UnpinPage_pinned pinned_page0 0 true 0 reachable_pinned_page0);
    reflexivity.
Defined.

Lemma Page_eta (p : Page) :
  mkPage (data_ p) (page_id_ p) (pin_count_ p) (is_dirty_ p) = p.
Proof. by destruct p. Qed.

(** X8.  As long as no pin count has overflowed, FetchPage of a resident
    page whose pin count is below [INT_MAX], entered with the latch free and
    followed by UnpinPage(page, false), gives back the state before the two
    calls, up to the recency bit of the frame: frames, page table, free list
    and disk are the same and the replacer tracks the same frames.  When the
    page was already pinned the state is the same altogether. *)
Theorem FetchPage_UnpinPage_round_trip s page_id f :
  reachable_without_overflow s → latch_ s = false →
  page_table_ s !! page_id = Some f → (pin_count_ (page s f) < INT_MAX)%Z →
  ∃ s1 s2, FetchPageImpl page_id s = Returns s1 (Some f) ∧
    UnpinPageImpl page_id false s1 = Returns s2 true ∧
    pages_ s2 = pages_ s ∧ page_table_ s2 = page_table_ s ∧
    free_list_ s2 = free_list_ s ∧ disk_manager_ s2 = disk_manager_ s ∧
    latch_ s2 = false ∧
    (∀ g, ClockReplacer.tracked (replacer_ s2) g
          ↔ ClockReplacer.tracked (replacer_ s) g) ∧
    ((0 < pin_count_ (page s f))%Z → s2 = s).
Proof.
  intros Hs Hl Ht Hmax.
  destruct (reachable_without_overflow_pin_counts s Hs) as [Hge Hsound].
  specialize (Hge f).
  apply reachable_without_overflow_reachable in Hs.
  pose proof (reachable_Inv s Hs) as HInv.
  pose proof (reachable_tracked_unpinned s Hs) as Htr.
  destruct (Inv_table s HInv _ _ Ht) as (Hlt & _).
  assert (Hlt' : f < length (pages_ s)) by (by rewrite (Inv_pages s HInv)).
  pose proof (FetchPageImpl_hit s page_id f Hl Ht) as Hr1.
  rewrite int_wrap_id in Hr1 by int_lia.
  match type of Hr1 with _ = Returns ?x _ => set (s1 := x) in * end.
  assert (Hp1 : page s1 f = set_pin_count (pin_count_ (page s f) + 1) (page s f)).
  { unfold s1. by rewrite page_insert, decide_True. }
  assert (Hr2 : UnpinPageImpl page_id false s1 =
    Returns (mkBPM (pool_size_ s) (pages_ s) (page_table_ s) (free_list_ s)
               (if decide (pin_count_ (page s f) = 0)%Z
                then ClockReplacer.Unpin f (ClockReplacer.Pin f (replacer_ s))
                else ClockReplacer.Pin f (replacer_ s))
               (disk_manager_ s) false) true).
  { rewrite (UnpinPageImpl_pinned s1 page_id false f);
      [|done|done|rewrite Hp1; simpl; lia|rewrite Hp1; simpl; lia
       |unfold s1; simpl; by rewrite length_insert].
    rewrite Hp1. unfold s1. simpl. rewrite list_insert_insert_eq.
    replace (pin_count_ (page s f) + 1 - 1)%Z with (pin_count_ (page s f)) by lia.
    rewrite Page_eta, list_insert_id by (by apply list_lookup_lookup_total_lt).
    done. }
  eexists _, _. split; [exact Hr1|]. split; [exact Hr2|]. simpl.
  do 5 (split; [done|]).
  assert (Hbit : (0 < pin_count_ (page s f))%Z →
                 ClockReplacer.ref_bits (replacer_ s) !! f = Some None).
  { intros Hpin.
    destruct (ClockReplacer.ref_bits (replacer_ s) !! f) as [[b|]|] eqn:E.
    - assert (Hf : ClockReplacer.tracked (replacer_ s) f) by (by exists b).
      apply Htr in Hf. lia.
    - done.
    - apply lookup_ge_None in E. rewrite (Inv_replacer s HInv) in E. lia. }
  split.
  - intros g. case_decide as Hz.
    + rewrite tracked_Unpin, tracked_Pin. split.
      * intros [[? _]|[-> _]]; [done|]. by apply (Hsound page_id).
      * intros Hg. destruct (decide (g = f)) as [->|Hne]; [|by left].
        right. split; [done|].
        rewrite ClockReplacer_length_Pin. by rewrite (Inv_replacer s HInv).
    + rewrite tracked_Pin. split; [by intros [? _]|].
      intros Hg. split; [done|]. intros ->. apply Htr in Hg. lia.
  - intros Hpin. rewrite decide_False by lia.
    unfold ClockReplacer.Pin. rewrite list_insert_id by (by apply Hbit).
    destruct s as [n pg pt fl [bits hand] d l]. simpl in *. by subst.
Qed.

Lemma FetchPage_UnpinPage_round_trip_witness :
  ∃ s1 s2, FetchPageImpl 0 pinned_page0 = Returns s1 (Some 0) ∧
    UnpinPageImpl 0 false s1 = Returns s2 true ∧ s2 = pinned_page0.
Proof.
  assert (Hmax : (pin_count_ (page pinned_page0 0) < INT_MAX)%Z)
    by reflexivity.
  destruct (FetchPage_UnpinPage_round_trip pinned_page0 0 0
              pinned_page0_without_overflow eq_refl eq_refl Hmax)
    as (s1 & s2 & H1 & H2 & _ & _ & _ & _ & _ & _ & Heq).
  exists s1, s2. split; [exact H1|]. split; [exact H2|].
  apply Heq. simpl. lia.
Defined.

(** ** NewPage *)

(** X9.  NewPage, entered with the latch free in a reachable state, returns
    with the latch released.  When it fails nothing has changed: no page id
    was allocated and the disk was not called.  When it succeeds the page id
    is the one the allocator handed out, exactly one id was allocated, and
    the page is resident in the returned frame, zero-filled, clean, pinned
    once, neither tracked by the replacer nor on the free list. *)
Theorem NewPage_spec s :
  reachable s → latch_ s = false →
  ∃ s' r, NewPageImpl s = Returns s' r ∧ latch_ s' = false ∧
    match r with
    | None => s' = s
    | Some (p, f) =>
        p = DiskManager.next_page_id (disk_manager_ s) ∧
        DiskManager.next_page_id (disk_manager_ s') = (p + 1)%Z ∧
        page s' f = mkPage zero_buffer p 1 false ∧
        page_table_ s' !! p = Some f ∧
        ¬ ClockReplacer.tracked (replacer_ s') f ∧
        f ∉ free_list_ s'
    end.
Proof.
  intros Hs Hl. pose proof (reachable_Inv s Hs) as HInv.
  pose proof (reachable_tracked_unpinned s Hs) as Htr.
  destruct (NewPage_result s HInv Hl) as (s' & [[p f]|] & Hr & Hiff & _).
  - exists s', (Some (p, f)). split; [done|].
    assert (Hs' : reachable s').
    { apply (reachable_step s NewPage); [done|]. simpl. by rewrite Hr. }
    pose proof (reachable_Inv s' Hs') as HInv'.
    destruct (NewPage_cases s s' p f HInv Htr Hr)
      as (_ & Hlt & _ & Hp & [(_ & Heq)|(r & _ & _ & Heq)]).
    + assert (Hpt : page_table_ s' !! p = Some f)
        by (rewrite Heq; simpl; by rewrite lookup_insert_eq).
      split; [by rewrite Heq|]. split; [done|].
      split; [by rewrite Heq, Hp|].
      split; [rewrite Heq; by rewrite page_insert, decide_True|].
      split; [done|].
      split; [rewrite Heq; simpl; rewrite tracked_Pin; by intros [_ ?]|].
      by apply (Inv_table s' HInv' p f).
    + assert (Hpt : page_table_ s' !! p = Some f)
        by (rewrite Heq; simpl; by rewrite lookup_insert_eq).
      split; [by rewrite Heq|]. split; [done|].
      split.
      { rewrite Heq, Hp. simpl. unfold new_write_back.
        by destruct (is_dirty_ (page s f)). }
      split; [rewrite Heq; by rewrite page_insert, decide_True|].
      split; [done|].
      split; [rewrite Heq; simpl; rewrite tracked_Pin; by intros [_ ?]|].
      by apply (Inv_table s' HInv' p f).
  - exists s', None. split; [done|].
    destruct (proj1 Hiff eq_refl) as [Hfl Hv].
    rewrite NewPageImpl_exhausted in Hr by done. by injection Hr as <-.
Qed.

Lemma NewPage_spec_witness :
  (∃ s', NewPageImpl pinned_page0 = Returns s' None ∧ s' = pinned_page0) ∧
  (∃ s', NewPageImpl dirty_page0 = Returns s' (Some (2%Z, 0)) ∧
     DiskManager.next_page_id (disk_manager_ s') = 3%Z ∧
     page s' 0 = mkPage zero_buffer 2 1 false ∧
     page_table_ s' !! 2%Z = Some 0).
Proof.
  split.
  - destruct (NewPage_spec pinned_page0 reachable_pinned_page0 eq_refl)
      as (s' & r & Hr & _ & Hm).
    assert (Hn : NewPageImpl pinned_page0 = Returns pinned_page0 None)
      by (vm_compute; reflexivity).
    rewrite Hn in Hr. injection Hr as <- <-. by exists pinned_page0.
  - destruct (NewPage_spec dirty_page0 reachable_dirty_page0 eq_refl)
      as (s' & r & Hr & _ & Hm).
    assert (Hn : ∃ s1, NewPageImpl dirty_page0 = Returns s1 (Some (2%Z, 0)))
      by (eexists; vm_compute; reflexivity).
    destruct Hn as [s1 Hn]. rewrite Hn in Hr. injection Hr as <- <-.
    destruct Hm as (_ & Hnext & Hp & Ht & _).
    exists s1. split; [exact Hn|]. split; [exact Hnext|]. split; [exact Hp|exact Ht].
Defined.

(** X10.  When NewPage has to evict, it writes a dirty victim back under the
    victim's own page id before it allocates the new id, so the disk holds
    the victim's last buffer under that id; a clean victim causes no write.
    [ReadPage] is never called. *)
Theorem NewPage_evict_writes_back_victim s f r :
  reachable s → latch_ s = false → free_list_ s = [] →
  ClockReplacer.Victim (replacer_ s) = Some (f, r) →
  ∃ s' p, NewPageImpl s = Returns s' (Some (p, f)) ∧
    (is_dirty_ (page s f) = true →
       DiskManager.calls (disk_manager_ s') =
         DiskManager.AllocatePageCall p
         :: DiskManager.WritePageCall (page_id_ (page s f)) (data_ (page s f))
         :: DiskManager.calls (disk_manager_ s) ∧
       DiskManager.contents (disk_manager_ s') !! page_id_ (page s f)
       = Some (data_ (page s f))) ∧
    (is_dirty_ (page s f) = false →
       DiskManager.calls (disk_manager_ s') =
         DiskManager.AllocatePageCall p :: DiskManager.calls (disk_manager_ s) ∧
       DiskManager.contents (disk_manager_ s') =
         DiskManager.contents (disk_manager_ s)).
Proof.
  intros Hs Hl Hfl Hv. pose proof (reachable_Inv s Hs) as HInv.
  pose proof (Victim_lt s f r HInv Hv) as Hlt.
  eexists _, _. split; [by apply (NewPageImpl_evict s f r)|].
  unfold new_write_back. split; intros Hd; rewrite Hd; simpl.
  - split; [done|]. by rewrite lookup_insert_eq.
  - done.
Qed.

Lemma NewPage_evict_writes_back_victim_witness :
  ∃ s' p, NewPageImpl dirty_page0 = Returns s' (Some (p, 0)) ∧
    DiskManager.calls (disk_manager_ s') =
      [DiskManager.AllocatePageCall p; DiskManager.WritePageCall 0 marker;
       DiskManager.ReadPageCall 0] ∧
    DiskManager.contents (disk_manager_ s') !! 0%Z = Some marker.
Proof.
  destruct (NewPage_evict_writes_back_victim dirty_page0 0
              (ClockReplacer.mk [None] 0) reachable_dirty_page0)
    as (s' & p & Hr & Hdirty & _).
  - reflexivity.
  - reflexivity.
  - vm_compute. reflexivity.
  - exists s', p. split; [exact Hr|]. apply Hdirty. reflexivity.
Defined.

(** ** FlushAllPages *)

Lemma flushed_refl s : flushed s s.
Proof. split; try done. intros page_id f _ Hd Hd'. congruence. Qed.

Lemma flush_frame_only_clears t i g :
  is_dirty_ (page (flush_frame t i) g) = true → is_dirty_ (page t g) = true.
Proof.
  unfold flush_frame.
  destruct (is_dirty_ (page t i)); [|done].
  destruct (page_table_ t !! page_id_ (page t i)) as [f|] eqn:Ht.
  2:{ by rewrite FlushPageImpl_absent. }
  destruct (is_dirty_ (page t f)) eqn:Hd.
  2:{ by rewrite (FlushPageImpl_clean t _ f). }
  rewrite (FlushPageImpl_dirty t _ f) by done. cbn [fst].
  unfold page at 1. cbn [pages_]. rewrite list_lookup_total_insert.
  case_decide; [done|]. done.
Qed.

Lemma flushed_flush_frame s t i :
  Inv s → flushed s t →
  flushed s (flush_frame t i) ∧
  ∀ page_id, page_table_ s !! page_id = Some i →
             is_dirty_ (page (flush_frame t i) i) = false.
Proof.
  intros HInv Hst. destruct Hst as [Hn Hlen Hpt Hfl Hrp Hl Hnext Hfr Hw Hu].
  unfold flush_frame.
  destruct (is_dirty_ (page t i)) eqn:Hdi; [|by split].
  destruct (Hfr i) as (_ & Hidi & _ & _). rewrite Hidi.
  destruct (page_table_ s !! page_id_ (page s i)) as [g|] eqn:Hq.
  2:{ rewrite FlushPageImpl_absent by congruence.
      split; [by split|]. intros page_id Hp.
      destruct (Inv_table s HInv _ _ Hp) as (_ & Hid & _). congruence. }
  destruct (Inv_table s HInv _ _ Hq) as (Hlt & Hidg & _).
  assert (Hltt : g < length (pages_ t)).
  { by rewrite Hlen, (Inv_pages s HInv). }
  destruct (is_dirty_ (page t g)) eqn:Hdg.
  2:{ rewrite (FlushPageImpl_clean t _ g) by congruence.
      split; [by split|]. intros page_id Hp.
      destruct (Inv_table s HInv _ _ Hp) as (_ & Hid & _).
      assert (g = i) by congruence. congruence. }
  rewrite (FlushPageImpl_dirty t _ g) by congruence. cbn [fst].
  destruct (Hfr g) as (Hdata & _ & _ & _).
  split.
  - split; cbn [pool_size_ pages_ page_table_ free_list_ replacer_
                disk_manager_ latch_]; try done.
    + by rewrite length_insert.
    + intros h. rewrite page_insert by done.
      case_decide; [subst h; cbn|apply Hfr].
      destruct (Hfr g) as (? & ? & ? & ?). done.
    + intros page_id f Hp Hds Hdt. rewrite page_insert in Hdt by done.
      destruct (Inv_table s HInv _ _ Hp) as (_ & Hidf & _). cbn.
      destruct (decide (page_id = page_id_ (page s i))) as [->|Hne].
      * assert (f = g) by congruence. subst f.
        rewrite lookup_insert_eq. by rewrite Hdata.
      * assert (g ≠ f) by (intros ->; congruence).
        rewrite decide_False in Hdt by done.
        rewrite lookup_insert_ne by done. by apply Hw.
    + intros page_id Hp. cbn.
      rewrite lookup_insert_ne by (intros <-; congruence).
      by apply Hu.
  - intros page_id Hp. destruct (Inv_table s HInv _ _ Hp) as (_ & Hid & _).
    assert (g = i) by congruence. subst g.
    by rewrite page_insert, decide_True.
Qed.

Lemma flushed_foldl s l : ∀ t,
  Inv s → flushed s t →
  flushed s (foldl flush_frame t l) ∧
  (∀ i page_id, i ∈ l → page_table_ s !! page_id = Some i →
     is_dirty_ (page (foldl flush_frame t l) i) = false) ∧
  (∀ g, is_dirty_ (page (foldl flush_frame t l) g) = true →
        is_dirty_ (page t g) = true).
Proof.
  induction l as [|i l IH]; intros t HInv Hst; simpl.
  - split; [done|]. split; [|done]. intros i page_id Hi. by apply elem_of_nil in Hi.
  - destruct (flushed_flush_frame s t i HInv Hst) as [Hst' Hclean].
    destruct (IH (flush_frame t i) HInv Hst') as (Hfl & Hcl & Hmono).
    split; [done|]. split.
    + intros j page_id Hj Hp. apply elem_of_cons in Hj as [->|Hj]; [|by eauto].
      destruct (is_dirty_ (page (foldl flush_frame (flush_frame t i) l) i)) eqn:Hd;
        [|done].
      apply Hmono in Hd. by rewrite (Hclean page_id Hp) in Hd.
    + intros g Hg. by apply flush_frame_only_clears with i, Hmono.
Qed.

(** X11.  FlushAllPages, entered with the latch free in a reachable state,
    returns with the latch released and every resident page clean; the disk
    holds the buffer of every resident page that was dirty under that page's
    id, and what it holds under ids that are not resident is untouched.
    Buffers, page ids, pin counts, the page table, the free list and the
    replacer are unchanged. *)
Theorem FlushAllPages_spec s :
  reachable s → latch_ s = false →
  ∃ s', FlushAllPagesImpl s = Returns s' tt ∧ latch_ s' = false ∧
    (∀ page_id f, page_table_ s !! page_id = Some f →
       is_dirty_ (page s' f) = false ∧
       (is_dirty_ (page s f) = true →
          DiskManager.contents (disk_manager_ s') !! page_id
          = Some (data_ (page s f)))) ∧
    (∀ page_id, page_table_ s !! page_id = None →
       DiskManager.contents (disk_manager_ s') !! page_id
       = DiskManager.contents (disk_manager_ s) !! page_id) ∧
    (∀ g, data_ (page s' g) = data_ (page s g) ∧
          page_id_ (page s' g) = page_id_ (page s g) ∧
          pin_count_ (page s' g) = pin_count_ (page s g)) ∧
    page_table_ s' = page_table_ s ∧ free_list_ s' = free_list_ s ∧
    replacer_ s' = replacer_ s.
Proof.
  intros Hs Hl. pose proof (reachable_Inv s Hs) as HInv.
  eexists. split; [by apply FlushAllPagesImpl_free|].
  destruct (flushed_foldl s (seq 0 (pool_size_ s)) s HInv (flushed_refl s))
    as (Hfl & Hclean & _).
  destruct Hfl as [Hn Hlen Hpt Hf Hrp Hlatch Hnext Hfr Hw Hu].
  split; [congruence|]. split.
  - intros page_id f Hp. destruct (Inv_table s HInv _ _ Hp) as (Hlt & _).
    assert (Hc : is_dirty_ (page (foldl flush_frame s (seq 0 (pool_size_ s))) f)
                 = false).
    { apply (Hclean f page_id); [|done]. apply elem_of_seq. lia. }
    split; [done|]. intros Hd. by apply Hw.
  - split; [done|]. split; [|done].
    intros g. destruct (Hfr g) as (? & ? & ? & _). done.
Qed.

Lemma FlushAllPages_spec_witness :
  ∃ s', FlushAllPagesImpl dirty_page0 = Returns s' tt ∧
    is_dirty_ (page s' 0) = false ∧
    DiskManager.contents (disk_manager_ s') !! 0%Z = Some marker.
Proof.
  destruct (FlushAllPages_spec dirty_page0 reachable_dirty_page0 eq_refl)
    as (s' & Hr & _ & Hres & _).
  destruct (Hres 0%Z 0 eq_refl) as [Hc Hw].
  exists s'. split; [exact Hr|]. split; [exact Hc|]. apply Hw. reflexivity.
Defined.

(** ** DeletePage that succeeds *)

(** X12.  When DeletePage of a resident page returns true in a reachable
    state, the page is no longer resident and the other entries of the page
    table are as before; the only disk call is one [DeallocatePage] of the
    page (a dirty buffer is not written back); the frame is zero-filled,
    clean, unpinned and last on the free list.  A second DeletePage of the
    page returns true and changes nothing, and the next NewPage takes the
    frame just released. *)
Theorem DeletePage_success s page_id f s' :
  reachable s → page_table_ s !! page_id = Some f →
  DeletePageImpl page_id s = Returns s' true →
  page_table_ s' !! page_id = None ∧
  (∀ q, q ≠ page_id → page_table_ s' !! q = page_table_ s !! q) ∧
  DiskManager.calls (disk_manager_ s') =
    DiskManager.DeallocatePageCall page_id :: DiskManager.calls (disk_manager_ s) ∧
  DiskManager.contents (disk_manager_ s') =
    DiskManager.contents (disk_manager_ s) ∧
  page s' f = mkPage zero_buffer (page_id_ (page s f)) 0 false ∧
  (∀ g, g ≠ f → page s' g = page s g) ∧
  free_list_ s' = free_list_ s ++ [f] ∧
  DeletePageImpl page_id s' = Returns s' true ∧
  ∃ s'' p, NewPageImpl s' = Returns s'' (Some (p, f)).
Proof.
  intros Hs Ht Hr. pose proof (reachable_Inv s Hs) as HInv.
  destruct (latch_ s) eqn:Hl.
  { by rewrite (proj1 (proj2 (proj2 (proj2 (locked_Blocks s Hl))))) in Hr. }
  destruct (Inv_table s HInv _ _ Ht) as (Hlt & _).
  rewrite <- (Inv_pages s HInv) in Hlt.
  destruct (decide (page_id_ (page s f) = 0%Z)) as [Hz|Hnz].
  2:{ by rewrite (DeletePageImpl_refused s page_id f) in Hr. }
  rewrite (DeletePageImpl_deleted s page_id f) in Hr by done.
  injection Hr as <-. cbn [page_table_ disk_manager_ free_list_].
  split; [apply lookup_delete_eq|].
  split; [intros q Hne; by apply lookup_delete_ne|].
  do 2 (split; [done|]).
  split; [by rewrite page_insert, decide_True|].
  split; [intros g Hne; rewrite page_insert by done; by rewrite decide_False|].
  split; [done|]. split.
  - apply DeletePageImpl_absent; [done|]. apply lookup_delete_eq.
  - eexists _, _. apply (NewPageImpl_free _ f); cbn.
    + done.
    + apply last_snoc.
    + by rewrite length_insert.
Qed.

Lemma DeletePage_success_witness :
  ∃ s', DeletePageImpl 0 pinned_page0 = Returns s' true ∧
    page_table_ s' !! 0%Z = None ∧
    DiskManager.calls (disk_manager_ s') =
      [DiskManager.DeallocatePageCall 0; DiskManager.ReadPageCall 0] ∧
    free_list_ s' = [0] ∧
    DeletePageImpl 0 s' = Returns s' true ∧
    ∃ s'' p, NewPageImpl s' = Returns s'' (Some (p, 0)).
Proof.
  eexists. split; [vm_compute; reflexivity|].
  edestruct (DeletePage_success pinned_page0 0 0) as
    (Hgone & _ & Hcalls & _ & _ & _ & Hfl & Hagain & Hnew).
  - apply reachable_pinned_page0.
  - reflexivity.
  - vm_compute. reflexivity.
  - split; [exact Hgone|]. split; [exact Hcalls|]. split; [exact Hfl|].
    split; [exact Hagain|exact Hnew].
Defined.

(** ** The latch after a call *)

(** X13.  A call that starts in a reachable state with the latch free and
    returns has released the latch, with one exception: a FetchPage of a page
    that is not resident when no frame can be acquired returns with the
    latch held and nothing else changed. *)
Theorem call_releases_latch s o s' :
  reachable s → latch_ s = false → run_op o s = Some s' →
  latch_ s' = false ∨
  ∃ page_id, o = FetchPage page_id ∧ page_table_ s !! page_id = None ∧
    exhausted s ∧ s' = set_latch true s.
Proof.
  intros Hs Hl Hrun. destruct (latch_ s') eqn:Hl'; [right|by left].
  destruct (latch_held_only_by_FetchPage s o s' Hs Hl Hrun Hl')
    as (page_id & -> & Ht & Hex).
  exists page_id. do 3 (split; [done|]).
  destruct Hex as [Hfl Hv]. simpl in Hrun.
  rewrite FetchPageImpl_exhausted in Hrun by done. by injection Hrun as <-.
Qed.

Lemma call_releases_latch_witness :
  ∃ s', run_op (FetchPage 1) pinned_page0 = Some s' ∧
    (latch_ s' = false ∨
     ∃ page_id, FetchPage 1 = FetchPage page_id ∧
       page_table_ pinned_page0 !! page_id = None ∧
       exhausted pinned_page0 ∧ s' = set_latch true pinned_page0).
Proof.
  eexists. split; [vm_compute; reflexivity|].
  apply (call_releases_latch pinned_page0 (FetchPage 1) _
           reachable_pinned_page0); [reflexivity|].
  vm_compute. reflexivity.
Defined.

(** ** The constructor *)


(** ** The page table in reachable states *)

(** X14.  In every reachable state each entry of the page table leads to a
    frame of the pool that records this page id and is not on the free list,
    so no two page ids share a frame; the free list holds frames of the pool
    without repetition; [pages_] has [pool_size_] frames; a resident frame
    that the replacer tracks has pin count 0; and, as long as no pin count
    has overflowed, a resident frame with pin count 0 is tracked by the
    replacer. *)
Theorem page_table_sound s :
  reachable s →
  length (pages_ s) = pool_size_ s ∧
  (∀ page_id f, page_table_ s !! page_id = Some f →
     f < pool_size_ s ∧ page_id_ (page s f) = page_id ∧ (f ∉ free_list_ s) ∧
     (ClockReplacer.tracked (replacer_ s) f → pin_count_ (page s f) = 0%Z) ∧
     (reachable_without_overflow s → pin_count_ (page s f) = 0%Z →
      ClockReplacer.tracked (replacer_ s) f)) ∧
  (∀ p q f, page_table_ s !! p = Some f → page_table_ s !! q = Some f → p = q) ∧
  NoDup (free_list_ s) ∧ (∀ f, f ∈ free_list_ s → f < pool_size_ s).
Proof.
  intros Hs. pose proof (reachable_Inv s Hs) as HInv.
  pose proof (reachable_tracked_unpinned s Hs) as Htr.
  split; [apply HInv|]. split.
  - intros page_id f Hp. destruct (Inv_table s HInv _ _ Hp) as (? & ? & ?).
    do 3 (split; [done|]). split; [apply Htr|].
    intros Hno.
    by apply (proj2 (reachable_without_overflow_pin_counts s Hno) page_id).
  - split.
    + intros p q f Hp Hq.
      destruct (Inv_table s HInv _ _ Hp) as (_ & <- & _).
      by destruct (Inv_table s HInv _ _ Hq) as (_ & <- & _).
    + split; [apply HInv|apply HInv].
Qed.

Lemma page_table_sound_witness :
  length (pages_ dirty_page0) = pool_size_ dirty_page0 ∧
  (∀ page_id f, page_table_ dirty_page0 !! page_id = Some f →
     f < pool_size_ dirty_page0 ∧ page_id_ (page dirty_page0 f) = page_id ∧
     (f ∉ free_list_ dirty_page0) ∧
     (ClockReplacer.tracked (replacer_ dirty_page0) f →
      pin_count_ (page dirty_page0 f) = 0%Z) ∧
     (pin_count_ (page dirty_page0 f) = 0%Z →
      ClockReplacer.tracked (replacer_ dirty_page0) f)) ∧
  (∀ p q f, page_table_ dirty_page0 !! p = Some f →
            page_table_ dirty_page0 !! q = Some f → p = q) ∧
  NoDup (free_list_ dirty_page0) ∧
  (∀ f, f ∈ free_list_ dirty_page0 → f < pool_size_ dirty_page0).
Proof.
  destruct (page_table_sound dirty_page0 reachable_dirty_page0)
    as (Hlen & Hpt & Hrest).
  split; [exact Hlen|]. split; [|exact Hrest].
  intros page_id f Hf.
  destruct (Hpt page_id f Hf) as (H1 & H2 & H3 & H4 & H5).
  split; [exact H1|]. split; [exact H2|]. split; [exact H3|].
  split; [exact H4|]. apply H5.
  apply (short_run_without_overflow
           [FetchPage 0; WriteData 0 marker; UnpinPage 0 true] 1 disk01).
  - apply run_dirty_page0.
  - vm_compute. discriminate.
Defined.

(** ** Releasing a modified page and flushing it *)



(** ** Capacity *)

(** X16.  In every reachable state the resident pages and the free frames
    together never outnumber the frames of the pool. *)
Theorem resident_and_free_within_capacity s :
  reachable s →
  size (page_table_ s) + length (free_list_ s) ≤ pool_size_ s.
Proof.
  intros Hs. pose proof (reachable_Inv s Hs) as HInv.
  pose proof (Inv_table s HInv) as Hpt.
  pose proof (Inv_free_NoDup s HInv) as Hnd.
  pose proof (Inv_free_lt s HInv) as Hfl.
  assert (Hinj : ∀ p q f, page_table_ s !! p = Some f →
                          page_table_ s !! q = Some f → p = q).
  { intros p q f Hp Hq. destruct (Hpt _ _ Hp) as (_ & <- & _).
    by destruct (Hpt _ _ Hq) as (_ & <- & _). }
  set (frames := (map_to_list (page_table_ s)).*2).
  assert (Hin : ∀ f, f ∈ frames → ∃ p, page_table_ s !! p = Some f).
  { intros f Hf. apply list_elem_of_fmap in Hf as ([p g] & -> & Hpg).
    exists p. by apply elem_of_map_to_list in Hpg. }
  assert (Hndf : NoDup frames).
  { apply NoDup_fmap_2_strong; [|apply NoDup_map_to_list].
    intros [p f] [q g] Hp Hq Heq. simpl in Heq. subst g.
    apply elem_of_map_to_list in Hp, Hq. by rewrite (Hinj p q f). }
  assert (Hall : NoDup (frames ++ free_list_ s)).
  { apply NoDup_app. split; [done|]. split; [|done].
    intros f Hf. destruct (Hin f Hf) as [p Hp].
    by destruct (Hpt p f Hp) as (_ & _ & ?). }
  assert (Hsub : frames ++ free_list_ s ⊆ seq 0 (pool_size_ s)).
  { intros f Hf. apply elem_of_seq. apply elem_of_app in Hf as [Hf|Hf].
    - destruct (Hin f Hf) as [p Hp]. destruct (Hpt p f Hp) as (? & _). lia.
    - apply Hfl in Hf. lia. }
  pose proof (submseteq_length _ _ (NoDup_submseteq _ _ Hall Hsub)) as Hlen.
  rewrite length_app, length_seq in Hlen. unfold frames in Hlen.
  rewrite length_fmap, length_map_to_list in Hlen. lia.
Qed.

Lemma resident_and_free_within_capacity_witness :
  size (page_table_ dirty_page0) + length (free_list_ dirty_page0)
  ≤ pool_size_ dirty_page0.
Proof.
  apply (resident_and_free_within_capacity dirty_page0 reachable_dirty_page0).
Defined.
